(** * The credit ledger of the buddyhelp backend

    The three ledger routes of [src/index.js]:

      - [GET  /credits/:uid]       (lines 193-201)
      - [POST /admin/add-credits]  (lines 169-188)
      - [POST /tick]               (lines 206-223)

    Each route is an [async] Express handler that talks to the [credits]
    table through the Supabase client.  A handler is embedded as a small
    program whose only effect is to [await] a query; the program is then
    run either in one piece against the table ([run], [serve]) or
    interleaved with other in-flight handlers at its [await] points
    ([step], [interleave]), which is what the Node event loop does. *)

From stdpp Require Import base option strings list gmap.
From Stdlib Require Import ZArith Lia.

Open Scope Z_scope.

(** ** The [credits] table *)

Module Storage.

(** One row of [credits]: [{ user_id, remaining_seconds }].  The column
    [remaining_seconds] holds whole seconds; it is an integer here. *)
Record row := Row { user_id : string; remaining_seconds : Z }.

(** The [error] member of a Supabase reply.  The handlers never read it;
    the three values only tell apart why [data] is [null]. *)
Inductive pg_error := NoRows | DuplicateKey | Unavailable.

(** What [await supabaseAdmin.from("credits")...] resolves to:
    [{ data, error }].  [data = None] is JavaScript's [null]. *)
Record reply := Reply { data : option row; error : option pg_error }.

(** The three query shapes the ledger routes build. *)
Inductive query :=
| SelectSingle (uid : string)
    (* .select(..).eq("user_id", uid).single() *)
| Insert (r : row)
    (* .insert({ user_id, remaining_seconds }) *)
| Update (seconds : Z) (uid : string).
    (* .update({ remaining_seconds: seconds }).eq("user_id", uid) *)

(** The account a query is about. *)
Definition key_of (q : query) : string :=
  match q with
  | SelectSingle uid => uid
  | Insert r => user_id r
  | Update _ uid => uid
  end.

(** The backend: the table, keyed by [user_id] (one row per account), and
    the outages still to come, one flag per query that will be received
    ([true]: that query is not served).  An empty list is a backend that
    serves every query. *)
Record world := World { credits : gmap string Z; faults : list bool }.

Definition healthy (w : world) : Prop := faults w = [].

(** A query served by the table.  [.single()] on no row resolves to
    [data: null] with an error; [.update(..).eq(..)] on no row changes
    nothing and is no error; [.insert] on a taken key is refused. *)
Definition perform (q : query) (t : gmap string Z) : reply * gmap string Z :=
  match q with
  | SelectSingle uid =>
      match t !! uid with
      | Some n => (Reply (Some (Row uid n)) None, t)
      | None => (Reply None (Some NoRows), t)
      end
  | Insert r =>
      match t !! user_id r with
      | Some _ => (Reply None (Some DuplicateKey), t)
      | None => (Reply None None, <[user_id r := remaining_seconds r]> t)
      end
  | Update seconds uid =>
      match t !! uid with
      | Some _ => (Reply None None, <[uid := seconds]> t)
      | None => (Reply None None, t)
      end
  end.

(** A query sent to the backend: lost with [data: null] and an error when
    the backend is out, served by the table otherwise. *)
Definition exec (q : query) (w : world) : reply * world :=
  match faults w with
  | true :: fs => (Reply None (Some Unavailable), World (credits w) fs)
  | false :: fs =>
      let '(r, t) := perform q (credits w) in (r, World t fs)
  | [] =>
      let '(r, t) := perform q (credits w) in (r, World t [])
  end.

End Storage.
Export Storage.

(** ** Handlers as programs over [await] *)

Module Async.

(** The exception a handler can raise: reading a property of [null]. *)
Inductive exn := TypeError.

(** An [async] function body: it returns, throws, or awaits a query and
    goes on with the reply. *)
Inductive async (A : Type) : Type :=
| Return (a : A)
| Throw (e : exn)
| Await (q : query) (k : reply → async A).
Arguments Return {A} a.
Arguments Throw {A} e.
Arguments Await {A} q k.

Fixpoint bind {A B} (p : async A) (f : A → async B) : async B :=
  match p with
  | Return a => f a
  | Throw e => Throw e
  | Await q k => Await q (λ r, bind (k r) f)
  end.

#[global] Instance async_ret : MRet async := @Return.
#[global] Instance async_bind : MBind async := λ A B f p, bind p f.

Definition await (q : query) : async reply := Await q Return.

(** How a handler's promise settles: fulfilled with a value, or rejected
    with the exception thrown. *)
Inductive settled (A : Type) : Type :=
| Fulfilled (a : A)
| Rejected (e : exn).
Arguments Fulfilled {A} a.
Arguments Rejected {A} e.

(** A handler run in one piece: no other request is served between its
    queries. *)
Fixpoint run {A} (p : async A) (w : world) : settled A * world :=
  match p with
  | Return a => (Fulfilled a, w)
  | Throw e => (Rejected e, w)
  | Await q k => let '(r, w') := exec q w in run (k r) w'
  end.

End Async.
Export Async.

(** ** JavaScript Numbers that hold integers *)

Module Numbers.

(** The integer a Number holds after an exact integer result [z] is
    rounded to the 53 significant bits of a binary64: to the nearest
    representable value, a tie going to the even significand.  Up to
    [2 ^ 53] in absolute value nothing is lost.  The exponent range is not
    part of this: from [2 ^ 1024] on, JavaScript has [Infinity]. *)
Definition to_number (z : Z) : Z :=
  let a := Z.abs z in
  let e := Z.log2 a - 52 in
  if e <=? 0 then z
  else
    let q := a / 2 ^ e in
    let r := a mod 2 ^ e in
    let half := 2 ^ (e - 1) in
    let q' := if r <? half then q
              else if half <? r then q + 1
              else if Z.even q then q else q + 1 in
    Z.sgn z * (q' * 2 ^ e).

(** [a + b] and [a - b] on Numbers that hold integers. *)
Definition number_add (a b : Z) : Z := to_number (a + b).
Definition number_sub (a b : Z) : Z := to_number (a - b).

(** An integer that a Number can hold: rounding leaves it as it is, and
    it is within the exponent range. *)
Definition is_number (z : Z) : Prop := to_number z = z ∧ Z.abs z < 2 ^ 1024.

Arguments to_number : simpl never.
Arguments number_add : simpl never.
Arguments number_sub : simpl never.

End Numbers.
Export Numbers.

(** ** The routes *)

Module Ledger.

(** The JSON bodies the ledger routes send. *)
Inductive body :=
| Remaining (remaining : Z)      (* { remaining: n } *)
| Exhausted (exhausted : bool)   (* { exhausted: b } *)
| Message (message : string).    (* { message: s } *)

Record response := Response { status : Z; payload : body }.

(** [res.json(b)]: the status is left at its default, 200. *)
Definition sent (b : body) : response := Response 200 b.
Definition json (b : body) : async response := mret (sent b).

(** [data.remaining_seconds]: a [TypeError] when [data] is [null]. *)
Definition get_remaining_seconds (data : option row) : async Z :=
  match data with
  | Some d => mret (remaining_seconds d)
  | None => Throw TypeError
  end.

(** [app.post("/admin/add-credits", ...)], index.js 169-188. *)
Definition add_credits (userId : string) (seconds : Z) : async response :=
  r ← await (SelectSingle userId);
  _ ← match data r with
      | None => await (Insert (Row userId seconds))
      | Some d => await (Update (number_add (remaining_seconds d) seconds) userId)
      end;
  json (Message "Credits added").

(** [app.get("/credits/:uid", ...)], index.js 193-201. *)
Definition get_credits (uid : string) : async response :=
  r ← await (SelectSingle uid);
  n ← get_remaining_seconds (data r);
  json (Remaining n).

(** [app.post("/tick", ...)], index.js 206-223. *)
Definition tick (userId : string) : async response :=
  r ← await (SelectSingle userId);
  n ← get_remaining_seconds (data r);
  if n <=? 0 then json (Exhausted true)
  else
    _ ← await (Update (number_sub n 1) userId);
    json (Exhausted false).

End Ledger.
Export Ledger.

(** ** Requests served one at a time *)

Module Serial.

(** The ledger operations and the routes that implement them. *)
Inductive call :=
| GetBalance (uid : string)
| Grant (uid : string) (amount : Z)
| Tick (uid : string).

Definition handle (c : call) : async response :=
  match c with
  | GetBalance uid => get_credits uid
  | Grant uid amount => add_credits uid amount
  | Tick uid => tick uid
  end.

(** Each request is served to its end before the next one is taken. *)
Fixpoint serve (cs : list call) (w : world)
  : list (settled response) * world :=
  match cs with
  | [] => ([], w)
  | c :: cs' =>
      let '(o, w1) := run (handle c) w in
      let '(os, w2) := serve cs' w1 in
      (o :: os, w2)
  end.

(** The amounts granted to account [a] by the calls [cs]. *)
Fixpoint granted (a : string) (cs : list call) : Z :=
  match cs with
  | [] => 0
  | Grant uid amount :: cs' =>
      (if decide (uid = a) then amount else 0) + granted a cs'
  | _ :: cs' => granted a cs'
  end.

(** The number of [Tick]s for account [a] among the calls [cs] that were
    answered [exhausted = false], [os] being the answers to [cs]. *)
Fixpoint spent (a : string) (cs : list call) (os : list (settled response)) : Z :=
  match cs, os with
  | Tick uid :: cs', Fulfilled (Response _ (Exhausted false)) :: os' =>
      (if decide (uid = a) then 1 else 0) + spent a cs' os'
  | _ :: cs', _ :: os' => spent a cs' os'
  | _, _ => 0
  end.

(** How far the calls [cs] can move the balance of account [a]: the
    absolute values of the amounts granted to [a], and one per [Tick] for
    [a]. *)
Fixpoint span (a : string) (cs : list call) : Z :=
  match cs with
  | [] => 0
  | Grant uid amount :: cs' =>
      (if decide (uid = a) then Z.abs amount else 0) + span a cs'
  | Tick uid :: cs' => (if decide (uid = a) then 1 else 0) + span a cs'
  | GetBalance _ :: cs' => span a cs'
  end.

(** What one call, answered [o], does to the record of [a]. *)
Definition delta (a : string) (c : call) (o : settled response) : Z :=
  granted a [c] - spent a [c] [o].

(** No balance of the table is below zero. *)
Definition never_negative (t : gmap string Z) : Prop :=
  map_Forall (λ _ n, 0 ≤ n) t.

(** A call that is not a grant of a negative amount. *)
Definition no_negative_grant (c : call) : Prop :=
  match c with
  | Grant _ amount => 0 ≤ amount
  | _ => True
  end.

End Serial.
Export Serial.

(** ** Requests in flight together *)

Module Loop.

(** The server between two events: the handlers in flight, each stopped
    at an [await] or settled, and the backend. *)
Record server := Server { inflight : list (async response); backend : world }.

(** The event loop resumes handler [i]: its pending query is sent, and
    the handler moves on to its next [await] (or settles).  A settled
    handler, or an index out of range, is left alone. *)
Definition step (s : server) (i : nat) : server :=
  match inflight s !! i with
  | Some (Await q k) =>
      let '(r, w) := exec q (backend s) in
      Server (<[i := k r]> (inflight s)) w
  | _ => s
  end.

(** A schedule is the order in which handlers are resumed. *)
Definition interleave (sched : list nat) (s : server) : server :=
  foldl step s sched.

(** How many times the schedule resumes handler [i]. *)
Fixpoint resumptions (i : nat) (sched : list nat) : nat :=
  match sched with
  | [] => 0
  | j :: sched' => (if decide (j = i) then 1 else 0) + resumptions i sched'
  end.

(** The schedule that resumes handler 0 until it settles, then handler
    1, and so on: a [tick] has at most two [await]s. *)
Definition one_by_one (k : nat) : list nat :=
  flat_map (λ i, [i; i]) (seq 0 k).

End Loop.
Export Loop.

(** ** What a handler may write *)

Module Discipline.

(** The value a query stores is not below zero. *)
Definition write_ok (q : query) : Prop :=
  match q with
  | SelectSingle _ => True
  | Insert r => 0 ≤ remaining_seconds r
  | Update seconds _ => 0 ≤ seconds
  end.

(** The row a reply carries, if any, holds a balance that is not below
    zero. *)
Definition read_ok (r : reply) : Prop :=
  ∀ d, data r = Some d → 0 ≤ remaining_seconds d.

(** A handler, at any of its [await]s, that stores no value below zero as
    long as the rows it is handed hold none. *)
Inductive tame {A : Type} : async A → Prop :=
| tame_return a : tame (Return a)
| tame_throw e : tame (Throw e)
| tame_await q k :
    write_ok q → (∀ r, read_ok r → tame (k r)) → tame (Await q k).

(** A handler for account [uid], at any of its [await]s, while the balance
    of [uid] is between [lo] and [hi]: it sends at most [budget] more
    updates, each for [uid] and each of a value that is at most one below
    [lo] and not above [hi], whatever rows within these bounds it is
    handed, also when the lower bound has dropped in the meantime. *)
Inductive metered (uid : string) (hi : Z) : Z → nat → async response → Prop :=
| metered_return lo budget a : metered uid hi lo budget (Return a)
| metered_throw lo budget e : metered uid hi lo budget (Throw e)
| metered_select lo budget k :
    (∀ lo' r, lo' ≤ lo →
       (∀ d, data r = Some d → lo' ≤ remaining_seconds d ≤ hi) →
       metered uid hi lo' budget (k r)) →
    metered uid hi lo budget (Await (SelectSingle uid) k)
| metered_update lo budget seconds k :
    lo ≤ seconds + 1 → seconds ≤ hi →
    (∀ lo' r, lo' ≤ lo → metered uid hi lo' budget (k r)) →
    metered uid hi lo (S budget) (Await (Update seconds uid) k).

(** A [tick] for account [uid] on its way to charging one unit, while
    the balance of [uid] is between [lo] and [hi]: before its select
    (phase 2), before its update (phase 1), or having answered
    [exhausted = false] (phase 0).  Its update stores a value at most one
    below [lo] and not above [hi], provided the row it was handed held a
    balance above zero within these bounds. *)
Inductive charging (uid : string) (hi : Z) : Z → nat → async response → Prop :=
| charging_done lo : charging uid hi lo 0 (Return (sent (Exhausted false)))
| charging_update lo seconds k :
    lo ≤ seconds + 1 → seconds ≤ hi →
    (∀ lo' r, lo' ≤ lo → charging uid hi lo' 0 (k r)) →
    charging uid hi lo 1 (Await (Update seconds uid) k)
| charging_select lo k :
    (∀ lo' d error, lo' ≤ lo → 0 < remaining_seconds d →
       lo' ≤ remaining_seconds d ≤ hi →
       charging uid hi lo' 1 (k (Reply (Some d) error))) →
    charging uid hi lo 2 (Await (SelectSingle uid) k).

End Discipline.
Export Discipline.

(** ** The other routes of [src/index.js]

    [POST /signup] (44-64), [POST /login] (72-120), [GET /admin/users]
    (127-151), [POST /admin/approve] (157-164) and the relay loop of
    [POST /chat] (244-260).  They use two more collaborators: the identity
    provider behind [supabase.auth], taken as it answers, and the table
    [user_meta] of the same backend as [credits]. *)

Module Site.

(** *** The identity provider *)

Inductive auth_call :=
| SignUp (email password : string)               (* auth.signUp({ email, password }) *)
| SignInWithPassword (email password : string).  (* auth.signInWithPassword(..) *)

(** [data.user]: the handlers read [id] and [email]. *)
Record account := Account { id : string; email : string }.

(** [data] of an auth reply: [user], and [session.access_token]. *)
Record auth_data := AuthData { user : option account; session : option string }.

Record auth_error := AuthError { message : string }.

Record auth_reply := AuthReply { granted_data : auth_data; refusal : option auth_error }.

(** *** The table [user_meta] *)

(** One row of [user_meta], less its key [id]. *)
Record profile :=
  Profile { name : string; phone : string; country : string; status : string }.

Inductive meta_write :=
| MetaInsert (uid : string) (p : profile)
    (* .insert([{ id, name, phone, country, status }]) *)
| MetaSetStatus (st : string) (uid : string).
    (* .update({ status: st }).eq("id", uid) *)

(** [{ data, error }] of [.select("*").eq("id", uid).single()]. *)
Record meta_reply := MetaReply { meta : option profile; metaErr : option pg_error }.

(** [{ data, error }] of [.select("*")]: the rows, each with its [id]. *)
Record meta_rows := MetaRows { rows : option (list (string * profile)); rowsErr : option pg_error }.

(** The backend of the site: the ledger's backend (its outages are those of
    the whole backend) and the table [user_meta], keyed by [id]. *)
Record site := AtSite { ledger : world; user_meta : gmap string profile }.

(** The next query is lost, or not; the outage is used up either way. *)
Definition next_fault (w : world) : bool * world :=
  match faults w with
  | lost :: fs => (lost, World (credits w) fs)
  | [] => (false, World (credits w) [])
  end.

Definition set_status (st : string) (p : profile) : profile :=
  Profile (name p) (phone p) (country p) st.

Definition exec_meta_single (uid : string) (s : site) : meta_reply * site :=
  let '(lost, w) := next_fault (ledger s) in
  if lost : bool then (MetaReply None (Some Unavailable), AtSite w (user_meta s))
  else match user_meta s !! uid with
       | Some p => (MetaReply (Some p) None, AtSite w (user_meta s))
       | None => (MetaReply None (Some NoRows), AtSite w (user_meta s))
       end.

Definition exec_meta_all (s : site) : meta_rows * site :=
  let '(lost, w) := next_fault (ledger s) in
  if lost : bool then (MetaRows None (Some Unavailable), AtSite w (user_meta s))
  else (MetaRows (Some (map_to_list (user_meta s))) None, AtSite w (user_meta s)).

(** An insert on a taken [id] is refused; an update on no row changes
    nothing and is no error. *)
Definition exec_meta_write (q : meta_write) (s : site) : option pg_error * site :=
  let '(lost, w) := next_fault (ledger s) in
  if lost : bool then (Some Unavailable, AtSite w (user_meta s))
  else match q with
       | MetaInsert uid p =>
           match user_meta s !! uid with
           | Some _ => (Some DuplicateKey, AtSite w (user_meta s))
           | None => (None, AtSite w (<[uid := p]> (user_meta s)))
           end
       | MetaSetStatus st uid =>
           match user_meta s !! uid with
           | Some p => (None, AtSite w (<[uid := set_status st p]> (user_meta s)))
           | None => (None, AtSite w (user_meta s))
           end
       end.

Definition exec_credits (q : query) (s : site) : reply * site :=
  let '(r, w) := exec q (ledger s) in (r, AtSite w (user_meta s)).

(** *** Handlers *)

(** A handler body of the site: besides returning and throwing, it awaits
    the identity provider, [user_meta] or [credits]. *)
Inductive route (A : Type) : Type :=
| Done (a : A)
| Raise (e : exn)
| Auth (c : auth_call) (k : auth_reply → route A)
| MetaSingle (uid : string) (k : meta_reply → route A)
| MetaAll (k : meta_rows → route A)
| MetaWrite (q : meta_write) (k : option pg_error → route A)
| Credits (q : query) (k : reply → route A).
Arguments Done {A} a.
Arguments Raise {A} e.
Arguments Auth {A} c k.
Arguments MetaSingle {A} uid k.
Arguments MetaAll {A} k.
Arguments MetaWrite {A} q k.
Arguments Credits {A} q k.

Fixpoint route_bind {A B} (p : route A) (f : A → route B) : route B :=
  match p with
  | Done a => f a
  | Raise e => Raise e
  | Auth c k => Auth c (λ r, route_bind (k r) f)
  | MetaSingle uid k => MetaSingle uid (λ r, route_bind (k r) f)
  | MetaAll k => MetaAll (λ r, route_bind (k r) f)
  | MetaWrite q k => MetaWrite q (λ r, route_bind (k r) f)
  | Credits q k => Credits q (λ r, route_bind (k r) f)
  end.

#[global] Instance route_ret : MRet route := @Done.
#[global] Instance route_mbind : MBind route := λ A B f p, route_bind p f.

(** [try { p } catch (e) { h e }]. *)
Fixpoint catch {A} (p : route A) (h : exn → route A) : route A :=
  match p with
  | Done a => Done a
  | Raise e => h e
  | Auth c k => Auth c (λ r, catch (k r) h)
  | MetaSingle uid k => MetaSingle uid (λ r, catch (k r) h)
  | MetaAll k => MetaAll (λ r, catch (k r) h)
  | MetaWrite q k => MetaWrite q (λ r, catch (k r) h)
  | Credits q k => Credits q (λ r, catch (k r) h)
  end.

(** A ledger handler, as a handler of the site. *)
Fixpoint of_async {A} (p : async A) : route A :=
  match p with
  | Return a => Done a
  | Throw e => Raise e
  | Await q k => Credits q (λ r, of_async (k r))
  end.

(** Reading a property of [o]: a [TypeError] when [o] is [null]. *)
Definition deref {A} (o : option A) : route A :=
  match o with
  | Some a => Done a
  | None => Raise TypeError
  end.

(** A handler run in one piece; [idp] is the identity provider. *)
Fixpoint run_route (idp : auth_call → auth_reply) {A} (p : route A) (s : site)
  : settled A * site :=
  match p with
  | Done a => (Fulfilled a, s)
  | Raise e => (Rejected e, s)
  | Auth c k => run_route idp (k (idp c)) s
  | MetaSingle uid k =>
      let '(r, s') := exec_meta_single uid s in run_route idp (k r) s'
  | MetaAll k =>
      let '(r, s') := exec_meta_all s in run_route idp (k r) s'
  | MetaWrite q k =>
      let '(r, s') := exec_meta_write q s in run_route idp (k r) s'
  | Credits q k =>
      let '(r, s') := exec_credits q s in run_route idp (k r) s'
  end.

(** *** Responses *)

(** [user] of the login response. *)
Inductive login_user :=
| LoginUser (id email name phone country status : string) (credits : Z).

(** An entry of [users]: a row of [user_meta] and
    [credits: { remaining_seconds }]. *)
Inductive listed_user :=
| Listed (id : string) (row : profile) (remaining_seconds : Z).

Inductive site_body :=
| Msg (message : string)                        (* { message } *)
| Err (error : string)                          (* { error: "..." } *)
| ErrObj (error : pg_error)                     (* { error } *)
| LoggedIn (token : string) (user : login_user) (* { token, user } *)
| Users (users : list listed_user).             (* { users } *)

(** [res.status(code).json(content)]; [res.json] leaves the code at 200. *)
Record answer := Answer { code : Z; content : site_body }.

(** *** The routes *)

(** [credit?.remaining_seconds || 0] and [credit || { remaining_seconds: 0 }]. *)
Definition seconds_or_0 (credit : option row) : Z :=
  match credit with
  | Some d => remaining_seconds d
  | None => 0
  end.

(** [app.post("/signup", ...)], index.js 44-64. *)
Definition signup (email password name phone country : string) : route answer :=
  catch
    (a ← Auth (SignUp email password) Done;
     match refusal a with
     | Some error => mret (Answer 400 (Err (message error)))
     | None =>
         u ← deref (user (granted_data a));
         _ ← MetaWrite (MetaInsert (id u) (Profile name phone country "PENDING")) Done;
         _ ← Credits (Insert (Row (id u) 0)) Done;
         mret (Answer 200 (Msg "Account created. Pending admin approval."))
     end)
    (λ _, mret (Answer 500 (Err "Signup failed"))).

(** [app.post("/login", ...)], index.js 72-120. *)
Definition login (email password : string) : route answer :=
  catch
    (a ← Auth (SignInWithPassword email password) Done;
     match refusal a with
     | Some _ => mret (Answer 400 (Err "Invalid login"))
     | None =>
         u ← deref (user (granted_data a));
         m ← MetaSingle (id u) Done;
         match metaErr m with
         | Some _ => mret (Answer 200 (Err "User profile not found"))
         | None =>
             p ← deref (meta m);
             if decide (status p = "PENDING")
             then mret (Answer 200 (Err "Pending approval"))
             else if decide (status p = "BLOCKED")
             then mret (Answer 200 (Err "Blocked by admin"))
             else
               c ← Credits (SelectSingle (id u)) Done;
               token ← deref (session (granted_data a));
               mret (Answer 200
                       (LoggedIn token
                          (LoginUser (id u) (Site.email u) (name p) (phone p) (country p)
                                     (status p) (seconds_or_0 (data c)))))
         end
     end)
    (λ _, mret (Answer 500 (Err "Login failed"))).

(** The loop of [/admin/users]: one select on [credits] per row. *)
Fixpoint list_users (meta : list (string * profile)) : route (list listed_user) :=
  match meta with
  | [] => mret []
  | (uid, row) :: meta' =>
      c ← Credits (SelectSingle uid) Done;
      users ← list_users meta';
      mret (Listed uid row (seconds_or_0 (data c)) :: users)
  end.

(** [app.get("/admin/users", ...)], index.js 127-151. *)
Definition admin_users : route answer :=
  r ← MetaAll Done;
  match rowsErr r with
  | Some error => mret (Answer 500 (ErrObj error))
  | None =>
      meta ← deref (rows r);
      users ← list_users meta;
      mret (Answer 200 (Users users))
  end.

(** [app.post("/admin/approve", ...)], index.js 157-164. *)
Definition admin_approve (userId : string) : route answer :=
  _ ← MetaWrite (MetaSetStatus "ACTIVE" userId) Done;
  mret (Answer 200 (Msg "Approved")).

End Site.

(** ** The relay loop of [POST /chat] *)

Module Chat.

(** A chunk of the completion stream, as far as the loop looks into it:
    [chunk.choices?.[0]?.delta?.content].  Each level may be missing. *)
Record delta := Delta { content : option string }.
Record choice := Choice { delta_of : option delta }.
Record chunk := Chunk { choices : option (list choice) }.

(** [chunk.choices?.[0]?.delta?.content || ""]. *)
Definition txt (c : chunk) : string :=
  match choices c with
  | Some (first :: _) =>
      match delta_of first with
      | Some d => match content d with Some t => t | None => "" end
      | None => ""
      end
  | _ => ""
  end.

(** [for await (const chunk of stream) { ...; if (txt) res.write(txt); }]:
    the strings written, in order. *)
Fixpoint relay (stream : list chunk) : list string :=
  match stream with
  | [] => []
  | c :: stream' =>
      if decide (txt c = "") then relay stream' else txt c :: relay stream'
  end.

End Chat.

(** * Properties *)

(** ** The backend *)

Section Backend.

Implicit Types (w : world) (t : gmap string Z) (q : query).

Lemma world_eta w : World (credits w) (faults w) = w.
Proof. by destruct w. Qed.

Lemma exec_healthy q w :
  healthy w →
  exec q w = ((perform q (credits w)).1, World (perform q (credits w)).2 []).
Proof.
  unfold healthy, exec. intros ->. by destruct (perform q (credits w)).
Qed.

Lemma perform_other q t (b : string) :
  key_of q ≠ b → (perform q t).2 !! b = t !! b.
Proof.
  intros Hne. destruct q as [uid|r|seconds uid]; simpl in *.
  - by destruct (t !! uid).
  - destruct (t !! user_id r); simpl; [done|]. by rewrite lookup_insert_ne.
  - destruct (t !! uid); simpl; [|done]. by rewrite lookup_insert_ne.
Qed.

Lemma exec_cases q w :
  (exec q w).1 = Reply None (Some Unavailable) ∧ credits (exec q w).2 = credits w
  ∨ (exec q w).1 = (perform q (credits w)).1
    ∧ credits (exec q w).2 = (perform q (credits w)).2.
Proof.
  unfold exec. destruct (faults w) as [|[] fs]; simpl; [|by left|];
    destruct (perform q (credits w)); by right.
Qed.

Lemma exec_other q w (b : string) :
  key_of q ≠ b → credits (exec q w).2 !! b = credits w !! b.
Proof.
  intros Hne. destruct (exec_cases q w) as [[_ ->]|[_ ->]]; [done|].
  by apply perform_other.
Qed.

(** A row that comes back from a select is the row of the table. *)
Lemma exec_select_data uid w d :
  data (exec (SelectSingle uid) w).1 = Some d →
  credits w !! uid = Some (remaining_seconds d).
Proof.
  destruct (exec_cases (SelectSingle uid) w) as [[-> _]|[-> _]]; simpl; [done|].
  destruct (credits w !! uid); simpl; [|done]. by intros [= <-].
Qed.

Lemma exec_select_same uid w :
  credits (exec (SelectSingle uid) w).2 = credits w.
Proof.
  destruct (exec_cases (SelectSingle uid) w) as [[_ ->]|[_ ->]]; simpl; [done|].
  by destruct (credits w !! uid).
Qed.

End Backend.

(** ** Running a handler *)

Section Running.

Context {A B : Type}.

Lemma run_bind (p : async A) (f : A → async B) w :
  run (p ≫= f) w =
    match run p w with
    | (Fulfilled a, w') => run (f a) w'
    | (Rejected e, w') => (Rejected e, w')
    end.
Proof.
  revert w. induction p as [a|e|q k IH]; intros w; try done.
  change (run (Await q k ≫= f) w)
    with (let '(r, w') := exec q w in run (k r ≫= f) w').
  simpl. destruct (exec q w) as [r w']. apply IH.
Qed.

Lemma run_await q w : run (await q) w = (Fulfilled (exec q w).1, (exec q w).2).
Proof. simpl. by destruct (exec q w). Qed.

End Running.

(** ** Arithmetic on Numbers *)

Section Rounding.

Implicit Types (z a b : Z).

(** Up to [2 ^ 53] in absolute value, a Number holds every integer. *)
Lemma to_number_exact z : Z.abs z ≤ 2 ^ 53 → to_number z = z.
Proof.
  intros Hz. unfold to_number. cbv zeta.
  destruct (Z.leb_spec (Z.log2 (Z.abs z) - 52) 0) as [|He]; [done|].
  assert (0 < Z.abs z) as Hpos.
  { destruct (Z.eq_dec (Z.abs z) 0) as [H0|]; [|lia]. rewrite H0 in He. simpl in He. lia. }
  assert (Z.abs z = 2 ^ 53) as Ha.
  { destruct (Z.lt_ge_cases (Z.abs z) (2 ^ 53)) as [Hlt|]; [|lia].
    apply Z.log2_lt_pow2 in Hlt; lia. }
  destruct (Z.abs_eq_or_opp z) as [Hs|Hs]; rewrite Hs in Ha.
  - by rewrite Ha.
  - replace z with (- 2 ^ 53) by lia. done.
Qed.

(** Rounding never takes a value below zero that was not. *)
Lemma to_number_nonneg z : 0 ≤ z → 0 ≤ to_number z.
Proof.
  intros Hz. unfold to_number. cbv zeta.
  destruct (Z.leb_spec (Z.log2 (Z.abs z) - 52) 0) as [|He]; [done|].
  pose proof (Z.sgn_nonneg z) as [_ Hs]. specialize (Hs Hz).
  assert (0 ≤ Z.abs z / 2 ^ (Z.log2 (Z.abs z) - 52)) as Hq.
  { apply Z.div_pos; [lia|]. apply Z.pow_pos_nonneg; lia. }
  apply Z.mul_nonneg_nonneg; [done|].
  apply Z.mul_nonneg_nonneg; [|apply Z.pow_nonneg; lia].
  repeat case_match; lia.
Qed.

Lemma number_add_exact a b : Z.abs (a + b) ≤ 2 ^ 53 → number_add a b = a + b.
Proof. apply to_number_exact. Qed.

Lemma number_sub_exact a b : Z.abs (a - b) ≤ 2 ^ 53 → number_sub a b = a - b.
Proof. apply to_number_exact. Qed.

End Rounding.

(** ** One call, run in one piece *)

Section OneCall.

Implicit Types (w : world) (uid : string) (n amount : Z).

(** The three handlers, query by query. *)
Lemma run_get_credits uid w :
  run (get_credits uid) w =
    let r := (exec (SelectSingle uid) w).1 in
    let w1 := (exec (SelectSingle uid) w).2 in
    match data r with
    | None => (Rejected TypeError, w1)
    | Some d => (Fulfilled (sent (Remaining (remaining_seconds d))), w1)
    end.
Proof.
  unfold get_credits. rewrite run_bind, run_await. simpl.
  by destruct (data _).
Qed.

Lemma run_tick uid w :
  run (tick uid) w =
    let r := (exec (SelectSingle uid) w).1 in
    let w1 := (exec (SelectSingle uid) w).2 in
    match data r with
    | None => (Rejected TypeError, w1)
    | Some d =>
        if remaining_seconds d <=? 0
        then (Fulfilled (sent (Exhausted true)), w1)
        else (Fulfilled (sent (Exhausted false)),
              (exec (Update (number_sub (remaining_seconds d) 1) uid) w1).2)
    end.
Proof.
  unfold tick. rewrite run_bind, run_await. simpl.
  destruct (data _) as [d|]; simpl; [|done].
  destruct (remaining_seconds d <=? 0); [done|].
  simpl. by destruct (exec _ _).
Qed.

Lemma run_add_credits uid amount w :
  run (add_credits uid amount) w =
    let r := (exec (SelectSingle uid) w).1 in
    let w1 := (exec (SelectSingle uid) w).2 in
    (Fulfilled (sent (Message "Credits added")),
     match data r with
     | None => (exec (Insert (Row uid amount)) w1).2
     | Some d => (exec (Update (number_add (remaining_seconds d) amount) uid) w1).2
     end).
Proof.
  unfold add_credits. rewrite run_bind, run_await. simpl.
  destruct (data _); simpl; by destruct (exec _ _).
Qed.

(** On a backend that serves every query. *)
Lemma select_found uid n w :
  healthy w → credits w !! uid = Some n →
  exec (SelectSingle uid) w = (Reply (Some (Row uid n)) None, w).
Proof.
  intros Hw Hn. rewrite exec_healthy by done. simpl. rewrite Hn. simpl.
  rewrite <- Hw. by rewrite world_eta.
Qed.

Lemma select_missing uid w :
  healthy w → credits w !! uid = None →
  exec (SelectSingle uid) w = (Reply None (Some NoRows), w).
Proof.
  intros Hw Hn. rewrite exec_healthy by done. simpl. rewrite Hn. simpl.
  rewrite <- Hw. by rewrite world_eta.
Qed.

Lemma update_found uid n m w :
  healthy w → credits w !! uid = Some n →
  exec (Update m uid) w = (Reply None None, World (<[uid := m]> (credits w)) []).
Proof. intros Hw Hn. rewrite exec_healthy by done. simpl. by rewrite Hn. Qed.

Lemma insert_missing uid m w :
  healthy w → credits w !! uid = None →
  exec (Insert (Row uid m)) w = (Reply None None, World (<[uid := m]> (credits w)) []).
Proof. intros Hw Hn. rewrite exec_healthy by done. simpl. by rewrite Hn. Qed.

Lemma tick_writes uid n w :
  healthy w → credits w !! uid = Some n → 0 < n →
  run (tick uid) w =
    (Fulfilled (sent (Exhausted false)),
     World (<[uid := number_sub n 1]> (credits w)) []).
Proof.
  intros Hw Hn Hpos. rewrite run_tick, (select_found uid n) by done. simpl.
  destruct (Z.leb_spec n 0); [lia|]. by rewrite (update_found uid n).
Qed.

Lemma tick_positive uid n w :
  healthy w → credits w !! uid = Some n → 0 < n → n ≤ 2 ^ 53 →
  run (tick uid) w =
    (Fulfilled (sent (Exhausted false)), World (<[uid := n - 1]> (credits w)) []).
Proof.
  intros Hw Hn Hpos Hsafe. rewrite (tick_writes uid n) by done.
  by rewrite number_sub_exact by lia.
Qed.

Lemma tick_empty uid n w :
  healthy w → credits w !! uid = Some n → n ≤ 0 →
  run (tick uid) w = (Fulfilled (sent (Exhausted true)), w).
Proof.
  intros Hw Hn Hle. rewrite run_tick, (select_found uid n) by done. simpl.
  destruct (Z.leb_spec n 0); [done|lia].
Qed.

Lemma tick_missing uid w :
  healthy w → credits w !! uid = None →
  run (tick uid) w = (Rejected TypeError, w).
Proof. intros Hw Hn. by rewrite run_tick, select_missing. Qed.

Lemma get_credits_found uid n w :
  healthy w → credits w !! uid = Some n →
  run (get_credits uid) w = (Fulfilled (sent (Remaining n)), w).
Proof. intros Hw Hn. by rewrite run_get_credits, (select_found uid n). Qed.

Lemma get_credits_missing uid w :
  healthy w → credits w !! uid = None →
  run (get_credits uid) w = (Rejected TypeError, w).
Proof. intros Hw Hn. by rewrite run_get_credits, select_missing. Qed.

Lemma add_credits_found uid n amount w :
  healthy w → credits w !! uid = Some n →
  run (add_credits uid amount) w =
    (Fulfilled (sent (Message "Credits added")),
     World (<[uid := number_add n amount]> (credits w)) []).
Proof.
  intros Hw Hn. rewrite run_add_credits, (select_found uid n) by done. simpl.
  by rewrite (update_found uid n).
Qed.

Lemma add_credits_missing uid amount w :
  healthy w → credits w !! uid = None →
  run (add_credits uid amount) w =
    (Fulfilled (sent (Message "Credits added")),
     World (<[uid := amount]> (credits w)) []).
Proof.
  intros Hw Hn. rewrite run_add_credits, select_missing by done. simpl.
  by rewrite insert_missing.
Qed.

End OneCall.

(** ** Single operations *)

(** C2, as the spec has it, fails: a [Tick] on a balance of [2 ^ 53 + 2]
    answers [exhausted = false] and leaves [2 ^ 53], two units less, since
    [2 ^ 53 + 1] is not a value a Number holds. *)
Lemma tick_takes_two_past_2_53 :
  run (tick "acct") (World {["acct" := 2 ^ 53 + 2]} [])
  = (Fulfilled (sent (Exhausted false)), World {["acct" := 2 ^ 53]} [])
  ∧ 2 ^ 53 ≠ (2 ^ 53 + 2) - 1.
Proof. split; [reflexivity|discriminate]. Qed.

(** C2, amended: on a backend that serves its queries, [Tick] on an
    account whose record holds [n] with [0 < n <= 2 ^ 53] answers
    [exhausted = false] and leaves the record at exactly [n - 1]. *)
Theorem tick_decrements (uid : string) (n : Z) (w : world) :
  healthy w → credits w !! uid = Some n → 0 < n → n ≤ 2 ^ 53 →
  (run (tick uid) w).1 = Fulfilled (sent (Exhausted false))
  ∧ credits (run (tick uid) w).2 !! uid = Some (n - 1).
Proof.
  intros Hw Hn Hpos Hsafe. rewrite (tick_positive uid n) by done. simpl.
  split; [done|]. apply lookup_insert_eq.
Qed.

Lemma tick_decrements_witness :
  let w := World {["acct" := 5]} [] in
  (run (tick "acct") w).1 = Fulfilled (sent (Exhausted false))
  ∧ credits (run (tick "acct") w).2 !! "acct" = Some 4.
Proof.
  apply (tick_decrements "acct" 5); [reflexivity|reflexivity|lia|lia].
Defined.

(** C3: [Tick] on an account whose record holds [n <= 0] answers
    [exhausted = true] and changes nothing: the backend is as it was. *)
Theorem tick_exhausted (uid : string) (n : Z) (w : world) :
  healthy w → credits w !! uid = Some n → n ≤ 0 →
  run (tick uid) w = (Fulfilled (sent (Exhausted true)), w)
  ∧ credits (run (tick uid) w).2 !! uid = Some n.
Proof.
  intros Hw Hn Hle. by rewrite (tick_empty uid n).
Qed.

Lemma tick_exhausted_witness :
  let w := World {["acct" := 0]} [] in
  run (tick "acct") w = (Fulfilled (sent (Exhausted true)), w)
  ∧ credits (run (tick "acct") w).2 !! "acct" = Some 0.
Proof.
  apply (tick_exhausted "acct" 0); [reflexivity|reflexivity|lia].
Defined.

(** A grant whose sum a Number holds exactly, on a backend that serves
    its queries. *)
Lemma add_credits_effect (uid : string) (amount : Z) (w : world) :
  healthy w →
  match credits w !! uid with
  | Some n => Z.abs (n + amount) ≤ 2 ^ 53
  | None => True
  end →
  (run (add_credits uid amount) w).1 = Fulfilled (sent (Message "Credits added"))
  ∧ credits (run (add_credits uid amount) w).2 !! uid
    = Some (match credits w !! uid with
            | Some n => n + amount
            | None => amount
            end).
Proof.
  intros Hw Hsafe. split; [by rewrite run_add_credits|].
  destruct (credits w !! uid) as [n|] eqn:Hn.
  - rewrite (add_credits_found uid n) by done. simpl.
    rewrite number_add_exact by done. apply lookup_insert_eq.
  - rewrite add_credits_missing by done. apply lookup_insert_eq.
Qed.

(** C5, as the spec has it, fails: a grant of 1 on a balance of [2 ^ 53]
    is answered with the success message and leaves [2 ^ 53], since
    [2 ^ 53 + 1] is not a value a Number holds. *)
Lemma grant_lost_past_2_53 :
  run (add_credits "acct" 1) (World {["acct" := 2 ^ 53]} [])
  = (Fulfilled (sent (Message "Credits added")), World {["acct" := 2 ^ 53]} [])
  ∧ 2 ^ 53 ≠ 2 ^ 53 + 1.
Proof. split; [reflexivity|discriminate]. Qed.

(** C5, amended: on a backend that serves its queries, for an amount from
    0 to [2 ^ 53], [Grant] answers with the success message; on a record
    holding [n], with [n] not below [- 2 ^ 53] and [n + amount] not above
    [2 ^ 53], it leaves the record at [n + amount]; on an account without
    a record it creates the record with [amount]. *)
Theorem grant_adds_or_creates (uid : string) (amount : Z) (w : world) :
  healthy w → 0 ≤ amount ≤ 2 ^ 53 →
  match credits w !! uid with
  | Some n => - 2 ^ 53 ≤ n ∧ n + amount ≤ 2 ^ 53
  | None => True
  end →
  (run (add_credits uid amount) w).1 = Fulfilled (sent (Message "Credits added"))
  ∧ credits (run (add_credits uid amount) w).2 !! uid
    = Some (match credits w !! uid with
            | Some n => n + amount
            | None => amount
            end).
Proof.
  intros Hw Ha Hb. apply add_credits_effect; [done|].
  destruct (credits w !! uid); [lia|done].
Qed.

Lemma grant_adds_or_creates_witness :
  ((run (add_credits "acct" 5) (World {["acct" := 10]} [])).1
     = Fulfilled (sent (Message "Credits added"))
   ∧ credits (run (add_credits "acct" 5) (World {["acct" := 10]} [])).2 !! "acct"
     = Some (10 + 5))
  ∧ ((run (add_credits "acct" 5) (World ∅ [])).1
       = Fulfilled (sent (Message "Credits added"))
     ∧ credits (run (add_credits "acct" 5) (World ∅ [])).2 !! "acct" = Some 5).
Proof.
  split.
  - pose proof (grant_adds_or_creates "acct" 5 (World {["acct" := 10]} [])
                  eq_refl ltac:(lia)) as H.
    cbn [credits] in H. rewrite lookup_singleton_eq in H. apply H. lia.
  - pose proof (grant_adds_or_creates "acct" 5 (World ∅ []) eq_refl ltac:(lia)) as H.
    cbn [credits] in H. rewrite lookup_empty in H. apply H. exact I.
Defined.

(** C6, as the spec has it, fails: a negative grant is answered with the
    success message and the balance moves from 10 to 7. *)
Lemma negative_grant_applied :
  run (add_credits "acct" (-3)) (World {["acct" := 10]} [])
  = (Fulfilled (sent (Message "Credits added")), World {["acct" := 7]} []).
Proof. reflexivity. Qed.

(** C6, amended: [add_credits] does not look at the sign of the amount.
    On a backend that serves its queries, a negative amount, not below
    [- 2 ^ 53], is answered with the success message like any other; a
    record holding [n], with [n] not above [2 ^ 53] and [n + amount] not
    below [- 2 ^ 53], is left at [n + amount], and an account without a
    record gets one holding [amount]. *)
Theorem grant_negative_accepted (uid : string) (amount : Z) (w : world) :
  healthy w → - 2 ^ 53 ≤ amount < 0 →
  match credits w !! uid with
  | Some n => n ≤ 2 ^ 53 ∧ - 2 ^ 53 ≤ n + amount
  | None => True
  end →
  (run (add_credits uid amount) w).1 = Fulfilled (sent (Message "Credits added"))
  ∧ credits (run (add_credits uid amount) w).2 !! uid
    = Some (match credits w !! uid with
            | Some n => n + amount
            | None => amount
            end).
Proof.
  intros Hw Ha Hb. apply add_credits_effect; [done|].
  destruct (credits w !! uid); [lia|done].
Qed.

Lemma grant_negative_accepted_witness :
  ((run (add_credits "acct" (-3)) (World {["acct" := 10]} [])).1
     = Fulfilled (sent (Message "Credits added"))
   ∧ credits (run (add_credits "acct" (-3)) (World {["acct" := 10]} [])).2 !! "acct"
     = Some (10 + -3))
  ∧ ((run (add_credits "acct" (-3)) (World ∅ [])).1
       = Fulfilled (sent (Message "Credits added"))
     ∧ credits (run (add_credits "acct" (-3)) (World ∅ [])).2 !! "acct" = Some (-3)).
Proof.
  split.
  - pose proof (grant_negative_accepted "acct" (-3) (World {["acct" := 10]} [])
                  eq_refl ltac:(lia)) as H.
    cbn [credits] in H. rewrite lookup_singleton_eq in H. apply H. lia.
  - pose proof (grant_negative_accepted "acct" (-3) (World ∅ []) eq_refl ltac:(lia)) as H.
    cbn [credits] in H. rewrite lookup_empty in H. apply H. exact I.
Defined.

(** C7, at an account without a record: neither handler answers.  The
    read of [remaining_seconds] on [null] throws, the handler's promise is
    rejected with a [TypeError], no response is sent, and the backend is
    as it was. *)
Theorem missing_record_rejects :
  let w := World {["acct" := 3]} [] in
  run (get_credits "ghost") w = (Rejected TypeError, w)
  ∧ run (tick "ghost") w = (Rejected TypeError, w).
Proof. split; reflexivity. Qed.

(** C8, with the backend out: [add_credits] answers "Credits added" though
    neither query was served and nothing was stored, and [tick] answers
    [exhausted = false] though its update was lost and the balance is
    still 3. *)
Theorem outage_answered_as_success :
  run (add_credits "acct" 5) (World ∅ [true; true])
  = (Fulfilled (sent (Message "Credits added")), World ∅ [])
  ∧ run (tick "acct") (World {["acct" := 3]} [false; true])
    = (Fulfilled (sent (Exhausted false)), World {["acct" := 3]} []).
Proof. split; reflexivity. Qed.

(** C10: a [Tick] or a [Grant] for account [a] leaves the record of any
    other account [b] as it was (present with the same balance, or
    absent), whatever the backend does. *)
Theorem other_account_untouched (a b : string) (w : world) :
  a ≠ b →
  credits (run (tick a) w).2 !! b = credits w !! b
  ∧ ∀ amount, credits (run (add_credits a amount) w).2 !! b = credits w !! b.
Proof.
  intros Hne. split.
  - rewrite run_tick. cbv zeta.
    destruct (data _) as [d|]; [|simpl; by rewrite exec_select_same].
    destruct (_ <=? _); simpl; [by rewrite exec_select_same|].
    rewrite exec_other by done. by rewrite exec_select_same.
  - intros amount. rewrite run_add_credits. cbv zeta. simpl.
    destruct (data _) as [d|]; rewrite exec_other by done;
      by rewrite exec_select_same.
Qed.

Lemma other_account_untouched_witness :
  let w := World (<["bob" := 7]> {["alice" := 2]}) [] in
  credits (run (tick "alice") w).2 !! "bob" = credits w !! "bob"
  ∧ ∀ amount, credits (run (add_credits "alice" amount) w).2 !! "bob"
              = credits w !! "bob".
Proof.
  apply (other_account_untouched "alice" "bob"). discriminate.
Defined.

(** ** Sequences of calls, served one at a time *)

Section Sequences.

Implicit Types (w : world) (c : call) (cs : list call) (a uid : string).

Lemma serve_cons c cs w :
  serve (c :: cs) w =
    ((run (handle c) w).1 :: (serve cs (run (handle c) w).2).1,
     (serve cs (run (handle c) w).2).2).
Proof.
  simpl. destruct (run (handle c) w) as [o w1]. simpl.
  by destruct (serve cs w1).
Qed.

Lemma granted_cons a c cs : granted a (c :: cs) = granted a [c] + granted a cs.
Proof. destruct c; simpl; lia. Qed.

Lemma spent_cons a c cs o os :
  spent a (c :: cs) (o :: os) = spent a [c] [o] + spent a cs os.
Proof.
  destruct c as [| |uid]; simpl; try lia.
  destruct o as [[st [| [] |]]|]; simpl; lia.
Qed.

Lemma span_cons a c cs : span a (c :: cs) = span a [c] + span a cs.
Proof. destruct c; simpl; lia. Qed.

Lemma span_nonneg a cs : 0 ≤ span a cs.
Proof.
  induction cs as [|[uid|uid amount|uid] cs IH]; simpl; [done|done| |];
    case_decide; lia.
Qed.

Lemma delta_span a c (o : settled response) : Z.abs (delta a c o) ≤ span a [c].
Proof.
  unfold delta. destruct c as [uid|uid amount|uid]; simpl.
  - lia.
  - case_decide; lia.
  - destruct o as [[st [| [] |]]|]; simpl; case_decide; lia.
Qed.

(** One call on a backend that serves its queries, on a balance from
    which the call cannot leave the integers a Number holds exactly: the
    backend goes on serving, and the record of [a] moves by the call's
    amount. *)
Lemma handle_delta a n c w :
  healthy w → credits w !! a = Some n → Z.abs n + span a [c] ≤ 2 ^ 53 →
  healthy (run (handle c) w).2
  ∧ credits (run (handle c) w).2 !! a = Some (n + delta a c (run (handle c) w).1).
Proof.
  intros Hw Hn Hsafe. unfold delta. destruct c as [uid|uid amount|uid];
    simpl handle; simpl in Hsafe.
  - destruct (credits w !! uid) as [m|] eqn:Hm.
    + rewrite (get_credits_found uid m) by done. simpl.
      split; [done|]. rewrite Hn. f_equal; lia.
    + rewrite get_credits_missing by done. simpl.
      split; [done|]. rewrite Hn. f_equal; lia.
  - destruct (credits w !! uid) as [m|] eqn:Hm.
    + rewrite (add_credits_found uid m) by done. simpl. split; [done|].
      case_decide as Hu; simplify_eq.
      * rewrite lookup_insert_eq, number_add_exact by lia. f_equal; lia.
      * rewrite lookup_insert_ne by done. rewrite Hn. f_equal; lia.
    + rewrite add_credits_missing by done. simpl. split; [done|].
      case_decide as Hu; simplify_eq.
      rewrite lookup_insert_ne by done. rewrite Hn. f_equal; lia.
  - destruct (credits w !! uid) as [m|] eqn:Hm.
    + destruct (Z.le_gt_cases m 0) as [Hle|Hgt].
      * rewrite (tick_empty uid m) by done. simpl.
        split; [done|]. rewrite Hn. f_equal; lia.
      * rewrite (tick_writes uid m) by (done || lia). simpl. split; [done|].
        case_decide as Hu; simplify_eq.
        -- rewrite lookup_insert_eq, number_sub_exact by lia. f_equal; lia.
        -- rewrite lookup_insert_ne by done. rewrite Hn. f_equal; lia.
    + rewrite tick_missing by done. simpl.
      split; [done|]. rewrite Hn. f_equal; lia.
Qed.

Lemma serve_deltas a cs : ∀ n w,
  healthy w → credits w !! a = Some n → Z.abs n + span a cs ≤ 2 ^ 53 →
  healthy (serve cs w).2
  ∧ credits (serve cs w).2 !! a
    = Some (n + granted a cs - spent a cs (serve cs w).1).
Proof.
  induction cs as [|c cs IH]; intros n w Hw Hn Hsafe.
  - simpl. split; [done|]. rewrite Hn. f_equal; lia.
  - rewrite serve_cons. simpl fst. simpl snd.
    rewrite span_cons in Hsafe. pose proof (span_nonneg a cs).
    destruct (handle_delta a n c w Hw Hn) as [Hw1 Hn1]; [lia|].
    pose proof (delta_span a c (run (handle c) w).1).
    destruct (IH _ _ Hw1 Hn1) as [Hw2 Hn2]; [lia|].
    split; [done|]. rewrite Hn2. f_equal.
    rewrite (granted_cons a c cs), (spent_cons a c cs). unfold delta. lia.
Qed.

(** Whatever the backend does, a balance that [get_credits] reports is
    the balance of the table. *)
Lemma get_credits_reports uid n w :
  (run (get_credits uid) w).1 = Fulfilled (sent (Remaining n)) →
  credits w !! uid = Some n.
Proof.
  rewrite run_get_credits. cbv zeta.
  destruct (data _) as [d|] eqn:Hd; simpl; [|done].
  intros [= <-]. by apply exec_select_data.
Qed.

Lemma perform_never_negative (q : query) (t : gmap string Z) :
  never_negative t →
  match q with
  | SelectSingle _ => True
  | Insert r => 0 ≤ remaining_seconds r
  | Update seconds _ => 0 ≤ seconds
  end →
  never_negative (perform q t).2.
Proof.
  intros Ht Hq. destruct q as [uid|r|seconds uid]; simpl.
  - by destruct (t !! uid).
  - destruct (t !! user_id r); simpl; [done|]. by apply map_Forall_insert_2.
  - destruct (t !! uid); simpl; [|done]. by apply map_Forall_insert_2.
Qed.

Lemma exec_never_negative (q : query) w :
  never_negative (credits w) →
  match q with
  | SelectSingle _ => True
  | Insert r => 0 ≤ remaining_seconds r
  | Update seconds _ => 0 ≤ seconds
  end →
  never_negative (credits (exec q w).2).
Proof.
  intros Hw Hq. destruct (exec_cases q w) as [[_ ->]|[_ ->]]; [done|].
  by apply perform_never_negative.
Qed.

(** One call that is not a negative grant keeps every balance at zero
    or above, whatever the backend does. *)
Lemma handle_never_negative c w :
  no_negative_grant c → never_negative (credits w) →
  never_negative (credits (run (handle c) w).2).
Proof.
  intros Hc Hw. destruct c as [uid|uid amount|uid]; simpl handle.
  - rewrite run_get_credits. cbv zeta.
    destruct (data _); simpl; by rewrite exec_select_same.
  - rewrite run_add_credits. cbv zeta. simpl.
    destruct (data _) as [d|] eqn:Hd.
    + apply exec_never_negative; [by rewrite exec_select_same|].
      apply exec_select_data in Hd. apply Hw in Hd. simpl in *.
      apply to_number_nonneg. lia.
    + apply exec_never_negative; [by rewrite exec_select_same|done].
  - rewrite run_tick. cbv zeta.
    destruct (data _) as [d|] eqn:Hd; simpl; [|by rewrite exec_select_same].
    destruct (Z.leb_spec (remaining_seconds d) 0); simpl;
      [by rewrite exec_select_same|].
    apply exec_never_negative; [by rewrite exec_select_same|].
    apply to_number_nonneg. lia.
Qed.

(** A balance among the answers of one call is a balance of the table. *)
Lemma handle_reports c n w :
  (run (handle c) w).1 = Fulfilled (sent (Remaining n)) →
  ∃ uid, credits w !! uid = Some n.
Proof.
  destruct c as [uid|uid amount|uid]; simpl handle.
  - intros H. exists uid. by apply get_credits_reports.
  - by rewrite run_add_credits.
  - rewrite run_tick. cbv zeta. destruct (data _); [|done].
    by destruct (_ <=? _).
Qed.

Lemma serve_never_negative cs : ∀ w,
  Forall no_negative_grant cs → never_negative (credits w) →
  never_negative (credits (serve cs w).2)
  ∧ ∀ n, Fulfilled (sent (Remaining n)) ∈ (serve cs w).1 → 0 ≤ n.
Proof.
  induction cs as [|c cs IH]; intros w Hcs Hw.
  - simpl. split; [done|]. intros n Hin. by apply elem_of_nil in Hin.
  - apply Forall_cons in Hcs as [Hc Hcs]. rewrite serve_cons. simpl fst. simpl snd.
    pose proof (handle_never_negative c w Hc Hw) as Hw1.
    destruct (IH _ Hcs Hw1) as [Hw2 Hobs]. split; [done|].
    intros n [Hin|Hin]%elem_of_cons; [|by apply Hobs].
    symmetry in Hin. apply handle_reports in Hin as [uid Hn]. by apply Hw in Hn.
Qed.

End Sequences.

(** C9, as the spec has it, fails: after a grant of 1 on a balance of
    [2 ^ 53], [GetBalance] answers [2 ^ 53], which is not the initial
    balance plus the amount granted. *)
Lemma granted_unit_not_reported :
  let cs := [Grant "acct" 1] in
  let w := World {["acct" := 2 ^ 53]} [] in
  run (get_credits "acct") (serve cs w).2
  = (Fulfilled (sent (Remaining (2 ^ 53))), (serve cs w).2)
  ∧ 2 ^ 53 ≠ 2 ^ 53 + granted "acct" cs - spent "acct" cs (serve cs w).1.
Proof. split; [reflexivity|discriminate]. Qed.

(** C9, amended: after any sequence of calls served one at a time on a
    backend that serves its queries, [GetBalance] for an account that had
    a record holding [n0] answers [n0], plus the amounts granted to the
    account, minus the number of its [Tick]s answered [exhausted = false],
    provided that the absolute value of [n0], the absolute values of the
    amounts granted to the account and the number of its [Tick]s add up
    to [2 ^ 53] at most. *)
Theorem balance_is_sum_of_deltas (a : string) (n0 : Z) (cs : list call) (w : world) :
  healthy w → credits w !! a = Some n0 → Z.abs n0 + span a cs ≤ 2 ^ 53 →
  run (get_credits a) (serve cs w).2
  = (Fulfilled (sent (Remaining (n0 + granted a cs - spent a cs (serve cs w).1))),
     (serve cs w).2).
Proof.
  intros Hw Hn Hsafe. destruct (serve_deltas a cs n0 w Hw Hn Hsafe) as [Hw' Hn'].
  by apply get_credits_found.
Qed.

Lemma balance_is_sum_of_deltas_witness :
  let cs := [Tick "acct"; Tick "acct"; Grant "acct" 5; Grant "other" 9; Tick "acct"] in
  let w := World {["acct" := 1]} [] in
  run (get_credits "acct") (serve cs w).2
  = (Fulfilled (sent (Remaining (1 + granted "acct" cs - spent "acct" cs (serve cs w).1))),
     (serve cs w).2).
Proof.
  apply (balance_is_sum_of_deltas "acct" 1); [reflexivity|reflexivity|].
  vm_compute. discriminate.
Defined.

(** C4, as the spec has it, fails: every balance is at zero or above, a
    grant of -5 is served, and the balance of the account is -5, which is
    what [GetBalance] then reports. *)
Lemma negative_grant_negative_balance :
  let w := World {["acct" := 0]} [] in
  let w' := (serve [Grant "acct" (-5)] w).2 in
  never_negative (credits w)
  ∧ credits w' !! "acct" = Some (-5)
  ∧ run (get_credits "acct") w' = (Fulfilled (sent (Remaining (-5))), w').
Proof.
  split; [|split; reflexivity].
  apply map_Forall_singleton. done.
Qed.

(** C4, amended: when no call grants a negative amount and no balance is
    below zero to begin with, then after each call of the sequence no
    balance is below zero, and no balance reported to a caller is below
    zero, whatever the backend does. *)
Theorem balances_stay_nonnegative (cs : list call) (w : world) :
  Forall no_negative_grant cs → never_negative (credits w) →
  ∀ i : nat,
    never_negative (credits (serve (take i cs) w).2)
    ∧ ∀ n, Fulfilled (sent (Remaining n)) ∈ (serve (take i cs) w).1 → 0 ≤ n.
Proof.
  intros Hcs Hw i. apply serve_never_negative; [|done]. by apply Forall_take.
Qed.

Lemma balances_stay_nonnegative_witness :
  let cs := [Grant "acct" 2; Tick "acct"; Tick "acct"; Tick "acct"; GetBalance "acct"] in
  let w := World {["acct" := 0]} [] in
  never_negative (credits (serve (take 4 cs) w).2)
  ∧ ∀ n, Fulfilled (sent (Remaining n)) ∈ (serve (take 4 cs) w).1 → 0 ≤ n.
Proof.
  apply balances_stay_nonnegative.
  - repeat constructor; simpl; lia.
  - apply map_Forall_singleton. simpl. lia.
Defined.

(** ** Handlers in flight together *)

Section EventLoop.

Implicit Types (w : world) (uid : string) (pre post : list (async response)).

Lemma step_middle pre (p : async response) post w :
  step (Server (pre ++ p :: post) w) (length pre) =
    match p with
    | Await q k => Server (pre ++ k (exec q w).1 :: post) (exec q w).2
    | _ => Server (pre ++ p :: post) w
    end.
Proof.
  unfold step. simpl. rewrite list_lookup_middle by done.
  destruct p as [a|e|q k]; try done.
  destruct (exec q w) as [r w']. simpl. f_equal.
  rewrite insert_app_r_alt by lia. by rewrite Nat.sub_diag.
Qed.

(** A [tick] resumed twice with nothing in between has read the balance
    and written it back less one. *)
Lemma tick_alone pre post uid n w :
  healthy w → credits w !! uid = Some n → 0 < n → n ≤ 2 ^ 53 →
  interleave [length pre; length pre] (Server (pre ++ tick uid :: post) w)
  = Server (pre ++ Return (sent (Exhausted false)) :: post)
           (World (<[uid := n - 1]> (credits w)) []).
Proof.
  intros Hw Hn Hpos Hsafe. unfold interleave. simpl foldl.
  rewrite step_middle. unfold tick. simpl.
  rewrite (select_found uid n) by done. simpl.
  rewrite step_middle. simpl.
  destruct (Z.leb_spec n 0); [lia|]. simpl.
  rewrite (update_found uid n) by done. simpl.
  by rewrite number_sub_exact by lia.
Qed.

Lemma one_by_one_from uid (k : nat) : ∀ pre n w,
  healthy w → credits w !! uid = Some n → Z.of_nat k ≤ n → n ≤ 2 ^ 53 →
  interleave (flat_map (λ i, [i; i]) (seq (length pre) k))
             (Server (pre ++ replicate k (tick uid)) w)
  = Server (pre ++ replicate k (Return (sent (Exhausted false))))
           (World (<[uid := n - Z.of_nat k]> (credits w)) []).
Proof.
  induction k as [|k IH]; intros pre n w Hw Hn Hk Hsafe.
  - simpl. rewrite Z.sub_0_r, insert_id by done.
    rewrite <- Hw. by rewrite world_eta.
  - simpl seq. simpl flat_map. simpl replicate.
    change (interleave (length pre :: length pre :: ?l) ?s)
      with (interleave l (interleave [length pre; length pre] s)).
    rewrite (tick_alone pre _ uid n) by (done || lia).
    rewrite (cons_middle _ pre (replicate k (tick uid))), (assoc_L (++)).
    replace (S (length pre)) with (length (pre ++ [Return (sent (Exhausted false))]))
      by (rewrite length_app; simpl; lia).
    rewrite (IH _ (n - 1)); [|done|apply lookup_insert_eq|lia|lia].
    simpl credits. rewrite insert_insert_eq, <- (assoc_L (++)).
    do 2 f_equal. f_equal. lia.
Qed.

End EventLoop.

(** C1, as the spec has it, fails: two [tick]s in flight for an account
    holding 2, resumed in turn, both read 2 and both write 1.  Both answer
    [exhausted = false], and the balance is 1, not 0: one decrement is
    lost. *)
Lemma two_ticks_lose_an_update :
  let s := interleave [0; 1; 0; 1]%nat
             (Server [tick "acct"; tick "acct"] (World {["acct" := 2]} [])) in
  inflight s = [Return (sent (Exhausted false)); Return (sent (Exhausted false))]
  ∧ credits (backend s) !! "acct" = Some 1
  ∧ credits (backend s) !! "acct" ≠ Some (2 - 2).
Proof. split; [|split]; [reflexivity|reflexivity|discriminate]. Qed.

(** * Further properties of the ledger routes *)

(** ** What the routes never do to the table *)

Section Records.

Implicit Types (w : world) (q : query) (uid : string).

Lemma perform_dom q (t : gmap string Z) :
  dom t ⊆ dom (perform q t).2
  ∧ (match q with Insert _ => True | _ => dom (perform q t).2 = dom t end).
Proof.
  destruct q as [uid|r|seconds uid]; simpl.
  - by destruct (t !! uid).
  - split; [|done]. destruct (t !! user_id r); simpl; [done|].
    apply dom_insert_subseteq.
  - destruct (t !! uid) as [n|] eqn:Hn; simpl; [|done].
    rewrite dom_insert_lookup_L by eauto. done.
Qed.

Lemma exec_dom q w :
  dom (credits w) ⊆ dom (credits (exec q w).2)
  ∧ (match q with Insert _ => True | _ => dom (credits (exec q w).2) = dom (credits w) end).
Proof.
  destruct (exec_cases q w) as [[_ ->]|[_ ->]]; [|apply perform_dom].
  split; [done|]. by destruct q.
Qed.

End Records.

(** X1: [get_credits] leaves the table exactly as it was; [tick] neither
    creates nor removes a record; [add_credits] removes none.  This holds
    whatever the backend does. *)
Theorem routes_keep_the_records (uid : string) (w : world) :
  credits (run (get_credits uid) w).2 = credits w
  ∧ dom (credits (run (tick uid) w).2) = dom (credits w)
  ∧ ∀ amount, dom (credits w) ⊆ dom (credits (run (add_credits uid amount) w).2).
Proof.
  split; [|split].
  - rewrite run_get_credits. cbv zeta.
    destruct (data _); simpl; apply exec_select_same.
  - rewrite run_tick. cbv zeta.
    destruct (data _) as [d|]; simpl; [|by rewrite exec_select_same].
    destruct (_ <=? _); simpl; [by rewrite exec_select_same|].
    destruct (exec_dom (Update (number_sub (remaining_seconds d) 1) uid)
                (exec (SelectSingle uid) w).2) as [_ ->].
    by rewrite exec_select_same.
  - intros amount. rewrite run_add_credits. cbv zeta. simpl.
    rewrite <- (exec_select_same uid w) at 1.
    destruct (data _); apply exec_dom.
Qed.

(** X2: [add_credits] never throws and never reports a failure: for every
    account, amount and backend, outages included, it answers status 200
    with the message "Credits added". *)
Theorem add_credits_always_answers_success (uid : string) (amount : Z) (w : world) :
  (run (add_credits uid amount) w).1 = Fulfilled (Response 200 (Message "Credits added")).
Proof. by rewrite run_add_credits. Qed.

(** X3: when the select of a [tick] or of a [get_credits] is lost to an
    outage, the handler throws a [TypeError] although the record may well
    exist; it sends no further query and the table is as it was. *)
Theorem lost_select_throws (uid : string) (fs : list bool) (w : world) :
  faults w = true :: fs →
  run (tick uid) w = (Rejected TypeError, World (credits w) fs)
  ∧ run (get_credits uid) w = (Rejected TypeError, World (credits w) fs).
Proof.
  intros Hf. rewrite run_tick, run_get_credits. unfold exec. by rewrite Hf.
Qed.

Lemma lost_select_throws_witness :
  let w := World {["acct" := 7]} [true; false] in
  run (tick "acct") w = (Rejected TypeError, World (credits w) [false])
  ∧ run (get_credits "acct") w = (Rejected TypeError, World (credits w) [false]).
Proof. apply (lost_select_throws "acct" [false]). reflexivity. Defined.

(** ** Calls one after the other *)

Section Composition.

Implicit Types (w : world) (uid : string).

Lemma ticks_on_empty uid (m : nat) : ∀ n w,
  healthy w → credits w !! uid = Some n → n ≤ 0 →
  serve (replicate m (Tick uid)) w
  = (replicate m (Fulfilled (sent (Exhausted true))), w).
Proof.
  induction m as [|m IH]; intros n w Hw Hn Hle; [done|].
  simpl replicate. rewrite serve_cons. simpl handle.
  rewrite (tick_empty uid n) by done. simpl.
  by rewrite (IH n).
Qed.

Lemma ticks_drain uid (m : nat) (n : nat) : ∀ w,
  healthy w → credits w !! uid = Some (Z.of_nat n) → Z.of_nat n ≤ 2 ^ 53 →
  serve (replicate (n + m) (Tick uid)) w
  = (replicate n (Fulfilled (sent (Exhausted false)))
     ++ replicate m (Fulfilled (sent (Exhausted true))),
     World (<[uid := 0]> (credits w)) []).
Proof.
  induction n as [|n IH]; intros w Hw Hn Hsafe.
  - simpl. rewrite (ticks_on_empty uid m 0) by done.
    rewrite insert_id by done. rewrite <- Hw. by rewrite world_eta.
  - change (S n + m)%nat with (S (n + m)). simpl replicate.
    rewrite serve_cons. simpl handle.
    rewrite (tick_positive uid (Z.of_nat (S n))) by (done || lia). simpl.
    rewrite IH; [|done| |lia].
    + simpl. by rewrite insert_insert_eq.
    + simpl. rewrite lookup_insert_eq. f_equal; lia.
Qed.

End Composition.

(** X4: [n + m] ticks served one after the other on a balance of [n], not
    above [2 ^ 53], by a backend that serves its queries: the first [n]
    answer [exhausted = false], the other [m] answer [exhausted = true],
    and the balance ends at 0. *)
Theorem ticks_drain_then_refuse (uid : string) (n m : nat) (w : world) :
  healthy w → credits w !! uid = Some (Z.of_nat n) → Z.of_nat n ≤ 2 ^ 53 →
  serve (replicate (n + m) (Tick uid)) w
  = (replicate n (Fulfilled (sent (Exhausted false)))
     ++ replicate m (Fulfilled (sent (Exhausted true))),
     World (<[uid := 0]> (credits w)) []).
Proof. intros Hw Hn Hsafe. by apply ticks_drain. Qed.

Lemma ticks_drain_then_refuse_witness :
  let w := World {["acct" := 5]} [] in
  serve (replicate (5 + 1) (Tick "acct")) w
  = (replicate 5 (Fulfilled (sent (Exhausted false)))
     ++ replicate 1 (Fulfilled (sent (Exhausted true))),
     World (<["acct" := 0]> (credits w)) []).
Proof.
  apply (ticks_drain_then_refuse "acct" 5 1); [reflexivity|reflexivity|].
  vm_compute. discriminate.
Defined.

(** X5: on a backend that serves its queries, two grants to an account
    served one after the other leave the backend as one grant of the sum
    does, whether the account had a record or not, as long as the
    absolute values of the balance and of the two amounts add up to
    [2 ^ 53] at most: nothing makes a repeated grant idempotent. *)
Theorem grants_add_up (uid : string) (a b : Z) (w : world) :
  healthy w →
  Z.abs (default 0 (credits w !! uid)) + Z.abs a + Z.abs b ≤ 2 ^ 53 →
  (serve [Grant uid a; Grant uid b] w).2 = (serve [Grant uid (a + b)] w).2.
Proof.
  intros Hw Hsafe. rewrite !serve_cons. cbn [serve handle fst snd].
  destruct (credits w !! uid) as [n|] eqn:Hn; simpl in Hsafe.
  - rewrite (add_credits_found uid n a w), (add_credits_found uid n (a + b) w) by done.
    cbn [fst snd].
    rewrite (add_credits_found uid (number_add n a)); [|done|apply lookup_insert_eq].
    simpl. rewrite insert_insert_eq.
    rewrite (number_add_exact n a), (number_add_exact n (a + b)),
      (number_add_exact (n + a) b) by lia.
    do 2 f_equal. lia.
  - rewrite (add_credits_missing uid a w), (add_credits_missing uid (a + b) w) by done.
    cbn [fst snd]. rewrite (add_credits_found uid a); [|done|apply lookup_insert_eq].
    simpl. rewrite insert_insert_eq. by rewrite number_add_exact by lia.
Qed.

Lemma grants_add_up_witness :
  let w := World {["acct" := 10]} [] in
  (serve [Grant "acct" 10; Grant "acct" 5] w).2 = (serve [Grant "acct" (10 + 5)] w).2.
Proof.
  apply (grants_add_up "acct" 10 5); [reflexivity|]. vm_compute. discriminate.
Defined.

(** ** Handlers in flight together, under any schedule *)

Section AnySchedule.

Implicit Types (w : world) (q : query) (uid : string) (s : server).

Lemma tame_get_credits uid : tame (get_credits uid).
Proof.
  unfold get_credits. simpl. constructor; [done|]. intros r Hr. simpl.
  destruct (data r); simpl; constructor.
Qed.

Lemma tame_tick uid : tame (tick uid).
Proof.
  unfold tick. simpl. constructor; [done|]. intros r Hr. simpl.
  destruct (data r) as [d|]; simpl; [|constructor].
  destruct (Z.leb_spec (remaining_seconds d) 0); simpl; [constructor|].
  constructor; [simpl; apply to_number_nonneg; lia|]. intros; constructor.
Qed.

Lemma tame_add_credits uid amount : 0 ≤ amount → tame (add_credits uid amount).
Proof.
  intros Ha. unfold add_credits. simpl. constructor; [done|]. intros r Hr. simpl.
  destruct (data r) as [d|] eqn:Hd; simpl.
  - constructor; [|intros; constructor]. simpl. specialize (Hr d Hd).
    apply to_number_nonneg. lia.
  - constructor; [done|]. intros; constructor.
Qed.

Lemma tame_handle c : no_negative_grant c → tame (handle c).
Proof.
  destruct c; simpl; auto using tame_get_credits, tame_tick, tame_add_credits.
Qed.

Lemma exec_read_ok q w : never_negative (credits w) → read_ok (exec q w).1.
Proof.
  intros Hw d. destruct (exec_cases q w) as [[-> _]|[-> _]]; [done|].
  destruct q as [uid|r|seconds uid]; simpl.
  - destruct (credits w !! uid) as [n|] eqn:Hn; simpl; [|done].
    intros [= <-]. simpl. by apply Hw in Hn.
  - by destruct (credits w !! user_id r).
  - by destruct (credits w !! uid).
Qed.

Lemma step_tame s i :
  Forall tame (inflight s) → never_negative (credits (backend s)) →
  Forall tame (inflight (step s i)) ∧ never_negative (credits (backend (step s i))).
Proof.
  intros Hp Hw. unfold step.
  destruct (inflight s !! i) as [[a|e|q k]|] eqn:Hi; try done.
  eapply Forall_lookup_1 in Hi as Hq; [|done].
  inversion Hq as [| |q' k' Hwrite Hk]; subst.
  pose proof (exec_read_ok q (backend s) Hw) as Hr.
  pose proof (exec_never_negative q (backend s) Hw Hwrite) as Hw'.
  destruct (exec q (backend s)) as [r w']. simpl in *.
  split; [|done]. apply Forall_insert; auto.
Qed.

Lemma interleave_tame sched : ∀ s,
  Forall tame (inflight s) → never_negative (credits (backend s)) →
  never_negative (credits (backend (interleave sched s))).
Proof.
  induction sched as [|i sched IH]; intros s Hp Hw; [done|].
  destruct (step_tame s i Hp Hw) as [Hp' Hw']. by apply (IH (step s i)).
Qed.

Lemma step_fst (p1 p2 : async response) w :
  step (Server [p1; p2] w) 0 =
    match p1 with
    | Await q k => Server [k (exec q w).1; p2] (exec q w).2
    | _ => Server [p1; p2] w
    end.
Proof. exact (step_middle [] p1 [p2] w). Qed.

Lemma step_snd (p1 p2 : async response) w :
  step (Server [p1; p2] w) 1 =
    match p2 with
    | Await q k => Server [p1; k (exec q w).1] (exec q w).2
    | _ => Server [p1; p2] w
    end.
Proof. exact (step_middle [p1] p2 [] w). Qed.

End AnySchedule.

(** X6: handlers in flight together, resumed in any order: when no grant
    among them has a negative amount and no balance is below zero to begin
    with, no balance is below zero afterwards, whatever the backend does.
    Updates can be lost, but a balance never goes negative. *)
Theorem interleaved_balances_stay_nonnegative
    (cs : list call) (sched : list nat) (w : world) :
  Forall no_negative_grant cs → never_negative (credits w) →
  never_negative (credits (backend (interleave sched (Server (handle <$> cs) w)))).
Proof.
  intros Hcs Hw. apply interleave_tame; [|done]. simpl.
  apply Forall_fmap. eapply Forall_impl; [done|]. apply tame_handle.
Qed.

Lemma interleaved_balances_stay_nonnegative_witness :
  never_negative
    (credits (backend (interleave [0; 1; 2; 1; 0; 2]%nat
       (Server (handle <$> [Tick "acct"; Grant "acct" 4; Tick "acct"])
               (World {["acct" := 1]} []))))).
Proof.
  apply interleaved_balances_stay_nonnegative.
  - repeat constructor; simpl; lia.
  - apply map_Forall_singleton. simpl. lia.
Defined.

(** X7: on a backend that serves its queries, two [tick]s for an account
    holding [n], with [0 < n <= 2 ^ 53], resumed in turn: both read [n],
    both write [n - 1], both answer [exhausted = false], and the balance
    ends at [n - 1].  With [n = 1], two ticks are granted on a single
    remaining unit. *)
Theorem interleaved_ticks_charge_once (uid : string) (n : Z) (w : world) :
  healthy w → credits w !! uid = Some n → 0 < n → n ≤ 2 ^ 53 →
  interleave [0; 1; 0; 1]%nat (Server [tick uid; tick uid] w)
  = Server [Return (sent (Exhausted false)); Return (sent (Exhausted false))]
           (World (<[uid := n - 1]> (credits w)) []).
Proof.
  intros Hw Hn Hpos Hsafe. unfold interleave. cbn [foldl].
  rewrite step_fst. unfold tick. simpl.
  rewrite (select_found uid n) by done. simpl.
  rewrite step_snd. simpl. rewrite (select_found uid n) by done. simpl.
  destruct (Z.leb_spec n 0); [lia|]. simpl.
  rewrite number_sub_exact by lia.
  rewrite step_fst. simpl. rewrite (update_found uid n) by done. simpl.
  rewrite step_snd. simpl.
  rewrite (update_found uid (n - 1)); [|done|apply lookup_insert_eq].
  simpl. by rewrite insert_insert_eq.
Qed.

Lemma interleaved_ticks_charge_once_witness :
  interleave [0; 1; 0; 1]%nat
    (Server [tick "acct"; tick "acct"] (World {["acct" := 1]} []))
  = Server [Return (sent (Exhausted false)); Return (sent (Exhausted false))]
           (World (<["acct" := 1 - 1]> {["acct" := 1]}) []).
Proof.
  apply (interleaved_ticks_charge_once "acct" 1); [reflexivity|reflexivity|lia|lia].
Defined.

(** X8: on a backend that serves its queries, two grants to an account
    holding [n], resumed in turn: both read [n], the first writes its
    sum, the second overwrites it with [n + b].  Both answer "Credits
    added", and the grant of [a] is lost.  The absolute values of [n] and
    [b] add up to [2 ^ 53] at most. *)
Theorem interleaved_grants_last_writer_wins (uid : string) (n a b : Z) (w : world) :
  healthy w → credits w !! uid = Some n → Z.abs n + Z.abs b ≤ 2 ^ 53 →
  interleave [0; 1; 0; 1]%nat (Server [add_credits uid a; add_credits uid b] w)
  = Server [Return (sent (Message "Credits added"));
            Return (sent (Message "Credits added"))]
           (World (<[uid := n + b]> (credits w)) []).
Proof.
  intros Hw Hn Hsafe. unfold interleave. cbn [foldl].
  rewrite step_fst. unfold add_credits. simpl.
  rewrite (select_found uid n) by done. simpl.
  rewrite step_snd. simpl. rewrite (select_found uid n) by done. simpl.
  rewrite step_fst. simpl. rewrite (update_found uid n) by done. simpl.
  rewrite step_snd. simpl.
  rewrite (update_found uid (number_add n a)); [|done|apply lookup_insert_eq].
  simpl. rewrite insert_insert_eq. by rewrite number_add_exact by lia.
Qed.

Lemma interleaved_grants_last_writer_wins_witness :
  interleave [0; 1; 0; 1]%nat
    (Server [add_credits "acct" 10; add_credits "acct" 5] (World {["acct" := 1]} []))
  = Server [Return (sent (Message "Credits added"));
            Return (sent (Message "Credits added"))]
           (World (<["acct" := 1 + 5]> {["acct" := 1]}) []).
Proof.
  apply (interleaved_grants_last_writer_wins "acct" 1 10 5);
    [reflexivity|reflexivity|lia].
Defined.

(** ** What interleaved ticks can cost *)

Section Metering.

Implicit Types (w : world) (uid : string) (s : server) (ms : list nat).

Lemma metered_weaken uid hi lo lo' budget (p : async response) :
  metered uid hi lo budget p → lo' ≤ lo → metered uid hi lo' budget p.
Proof.
  intros Hp Hle. destruct Hp as [| |lo m k Hk|lo m v k Hlo Hhi Hk].
  - constructor.
  - constructor.
  - constructor. intros lo'' r Hle' Hr. apply Hk; [lia|done].
  - constructor; [lia|done|]. intros lo'' r Hle'. apply Hk. lia.
Qed.

Lemma metered_tick uid hi lo : hi ≤ 2 ^ 53 → metered uid hi lo 1 (tick uid).
Proof.
  intros Hhi. unfold tick. simpl. constructor. intros lo' r Hle Hr. simpl.
  destruct (data r) as [d|] eqn:Hd; simpl; [|constructor].
  destruct (Z.leb_spec (remaining_seconds d) 0); simpl; [constructor|].
  specialize (Hr d eq_refl). rewrite number_sub_exact by lia.
  constructor; [lia|lia|]. intros; constructor.
Qed.

Lemma sum_list_spend ms : ∀ (i m : nat),
  ms !! i = Some (S m) → S (sum_list (<[i := m]> ms)) = sum_list ms.
Proof.
  induction ms as [|m0 ms IH]; intros [|i] m Hi; simplify_eq/=; [done|].
  rewrite <- (IH i m Hi). lia.
Qed.

(** A select for [uid] hands back the balance of [uid], or nothing. *)
Lemma exec_select_bounds uid w b d :
  credits w !! uid = Some b →
  data (exec (SelectSingle uid) w).1 = Some d → remaining_seconds d = b.
Proof.
  intros Hb Hd. apply exec_select_data in Hd. congruence.
Qed.

(** An update for [uid] stores its value, or is lost. *)
Lemma exec_update_cases uid v w b :
  credits w !! uid = Some b →
  credits (exec (Update v uid) w).2 !! uid = Some v
  ∨ credits (exec (Update v uid) w).2 !! uid = Some b.
Proof.
  intros Hb. destruct (exec_cases (Update v uid) w) as [[_ ->]|[_ ->]]; [by right|].
  simpl. rewrite Hb. simpl. left. apply lookup_insert_eq.
Qed.

Lemma step_metered uid hi s i ms lo b :
  Forall2 (metered uid hi lo) ms (inflight s) →
  credits (backend s) !! uid = Some b → lo ≤ b ≤ hi →
  ∃ ms' lo' b',
    Forall2 (metered uid hi lo') ms' (inflight (step s i))
    ∧ credits (backend (step s i)) !! uid = Some b'
    ∧ lo' ≤ b' ≤ hi
    ∧ lo - Z.of_nat (sum_list ms) ≤ lo' - Z.of_nat (sum_list ms').
Proof.
  intros Hp Hb Hbound. unfold step.
  destruct (inflight s !! i) as [[a|e|q k]|] eqn:Hi;
    try (exists ms, lo, b; repeat split; (done || lia)).
  destruct (Forall2_lookup_r _ _ _ _ _ Hp Hi) as (m & Hm & Hq).
  inversion Hq as [| |lo0 m0 k0 Hk|lo0 m0 v k0 Hlo Hhi Hk]; subst.
  - pose proof (exec_select_bounds uid (backend s) b) as Hd.
    pose proof (exec_select_same uid (backend s)) as Hsame.
    destruct (exec (SelectSingle uid) (backend s)) as [r w']. simpl in *.
    exists ms, lo, b. rewrite Hsame. repeat split; try (done || lia).
    rewrite <- (list_insert_id ms i m Hm). apply Forall2_insert; [done|].
    apply Hk; [lia|]. intros d Hrd. rewrite (Hd d Hb Hrd). lia.
  - pose proof (exec_update_cases uid v (backend s) b Hb) as Hw.
    destruct (exec (Update v uid) (backend s)) as [r w']. simpl in *.
    exists (<[i := m0]> ms), (lo - 1).
    assert (Forall2 (metered uid hi (lo - 1)) (<[i := m0]> ms) (<[i := k r]> (inflight s))).
    { apply Forall2_insert; [|apply Hk; lia].
      eapply Forall2_impl; [done|]. intros m' p' Hp'.
      apply (metered_weaken uid hi lo); [done|lia]. }
    pose proof (sum_list_spend ms i m0 Hm).
    destruct Hw as [Hw|Hw]; [exists v|exists b]; repeat split; (done || lia).
Qed.

Lemma interleave_metered uid hi sched : ∀ s ms lo b,
  Forall2 (metered uid hi lo) ms (inflight s) →
  credits (backend s) !! uid = Some b → lo ≤ b ≤ hi →
  ∃ b', credits (backend (interleave sched s)) !! uid = Some b'
        ∧ lo - Z.of_nat (sum_list ms) ≤ b' ≤ hi.
Proof.
  induction sched as [|i sched IH]; intros s ms lo b Hp Hb Hbound.
  - exists b. split; [done|]. lia.
  - destruct (step_metered uid hi s i ms lo b Hp Hb Hbound)
      as (ms' & lo' & b' & Hp' & Hb' & Hbound' & Hle).
    destruct (IH (step s i) ms' lo' b' Hp' Hb' Hbound') as (b'' & Hb'' & Hfin).
    exists b''. split; [done|]. lia.
Qed.

End Metering.

(** X9: [k] ticks for an account holding [n], not above [2 ^ 53], in
    flight together and resumed in any order, whatever the backend does:
    each tick takes at most one unit, so the balance ends between [n - k]
    and [n].  Racing ticks can undercharge, never overcharge. *)
Theorem interleaved_ticks_never_overcharge
    (uid : string) (n : Z) (k : nat) (sched : list nat) (w : world) :
  credits w !! uid = Some n → n ≤ 2 ^ 53 →
  ∃ b, credits (backend (interleave sched (Server (replicate k (tick uid)) w))) !! uid
       = Some b
       ∧ n - Z.of_nat k ≤ b ≤ n.
Proof.
  intros Hn Hsafe.
  destruct (interleave_metered uid n sched (Server (replicate k (tick uid)) w)
              (replicate k 1%nat) n n) as (b & Hb & Hbound).
  - simpl. apply Forall2_replicate. by apply metered_tick.
  - done.
  - lia.
  - exists b. split; [done|]. rewrite sum_list_replicate in Hbound. lia.
Qed.

Lemma interleaved_ticks_never_overcharge_witness :
  ∃ b, credits (backend (interleave [0; 1; 2; 2; 0; 1]%nat
         (Server (replicate 3 (tick "acct")) (World {["acct" := 5]} [])))) !! "acct"
       = Some b
       ∧ 5 - Z.of_nat 3 ≤ b ≤ 5.
Proof.
  apply (interleaved_ticks_never_overcharge "acct" 5 3); [reflexivity|lia].
Defined.

(** ** Ticks in flight together on a backend that serves them *)

Section Charging.

Implicit Types (w : world) (uid : string) (s : server) (phs : list nat).

Lemma charging_weaken uid hi lo lo' ph (p : async response) :
  charging uid hi lo ph p → lo' ≤ lo → charging uid hi lo' ph p.
Proof.
  intros Hp Hle. destruct Hp as [lo|lo v k Hlo Hhi Hk|lo k Hk].
  - constructor.
  - constructor; [lia|done|]. intros lo'' r Hle'. apply Hk. lia.
  - constructor. intros lo'' d error Hle' Hpos Hd. apply Hk; [lia|done|done].
Qed.

Lemma charging_tick uid hi lo : hi ≤ 2 ^ 53 → charging uid hi lo 2 (tick uid).
Proof.
  intros Hhi. unfold tick. simpl. constructor. intros lo' d error Hle Hpos Hd. simpl.
  destruct (Z.leb_spec (remaining_seconds d) 0); [lia|]. simpl.
  rewrite number_sub_exact by lia.
  constructor; [lia|lia|]. intros; constructor.
Qed.

Lemma alter_as_insert {A} (f : A → A) (l : list A) i x :
  l !! i = Some x → alter f i l = <[i := f x]> l.
Proof.
  intros Hx. rewrite list_insert_alter. apply list_alter_ext; [|done].
  intros y Hy. congruence.
Qed.

Lemma alter_out_of_range {A} (f : A → A) (l : list A) i :
  l !! i = None → alter f i l = l.
Proof.
  intros Hx. rewrite <- (list_alter_id id l i) at 2 by done.
  apply list_alter_ext; [|done]. intros y Hy. congruence.
Qed.

(** The handlers that have not answered yet. *)
Lemma pending_insert phs : ∀ i (x y : nat),
  phs !! i = Some x →
  (sum_list (Nat.min 1 <$> <[i := y]> phs) + Nat.min 1 x
   = sum_list (Nat.min 1 <$> phs) + Nat.min 1 y)%nat.
Proof.
  induction phs as [|ph phs IH]; intros [|i] x y Hi; simplify_eq/=; [lia|].
  specialize (IH i x y Hi). lia.
Qed.

Lemma step_length s i : length (inflight (step s i)) = length (inflight s).
Proof.
  unfold step. destruct (inflight s !! i) as [[a|e|q k]|]; try done.
  destruct (exec q (backend s)). simpl. apply length_insert.
Qed.

Lemma interleave_length sched : ∀ s,
  length (inflight (interleave sched s)) = length (inflight s).
Proof.
  induction sched as [|i sched IH]; intros s; [done|].
  simpl. change (foldl step (step s i) sched) with (interleave sched (step s i)).
  by rewrite IH, step_length.
Qed.

Lemma step_charging uid hi floor s i phs lo b :
  0 ≤ floor → healthy (backend s) →
  Forall2 (charging uid hi lo) phs (inflight s) →
  credits (backend s) !! uid = Some b → lo ≤ b ≤ hi →
  floor + Z.of_nat (sum_list (Nat.min 1 <$> phs)) ≤ lo →
  ∃ lo' b',
    healthy (backend (step s i))
    ∧ Forall2 (charging uid hi lo') (alter Nat.pred i phs) (inflight (step s i))
    ∧ credits (backend (step s i)) !! uid = Some b'
    ∧ lo' ≤ b' ≤ hi
    ∧ floor + Z.of_nat (sum_list (Nat.min 1 <$> alter Nat.pred i phs)) ≤ lo'.
Proof.
  intros Hfloor Hs Hp Hb Hbound Hpend. unfold step.
  destruct (inflight s !! i) as [p|] eqn:Hi.
  - destruct (Forall2_lookup_r _ _ _ _ _ Hp Hi) as (ph & Hph & Hq).
    rewrite (alter_as_insert _ _ _ _ Hph).
    pose proof (pending_insert phs i ph (Nat.pred ph) Hph) as Hsum.
    inversion Hq as [lo0|lo0 v k Hlo Hhi Hk|lo0 k Hk]; subst;
      cbn [Nat.pred] in Hsum |- *.
    + exists lo, b. rewrite list_insert_id by done.
      repeat split; try (done || lia).
    + rewrite (update_found uid b) by done. cbn [inflight backend credits Nat.pred].
      exists (lo - 1), v. rewrite lookup_insert_eq. repeat split; try (done || lia).
      apply Forall2_insert; [|apply Hk; lia].
      eapply Forall2_impl; [done|]. intros ph' p' Hp'.
      apply (charging_weaken uid hi lo); [done|lia].
    + rewrite (select_found uid b) by done. cbn [inflight backend credits Nat.pred].
      pose proof (pending_insert phs i 2 0 Hph) as Hone.
      exists lo, b. repeat split; try (done || lia).
      apply Forall2_insert; [done|]. apply Hk; simpl; lia.
  - exists lo, b. rewrite alter_out_of_range; [repeat split; try (done || lia)|].
    apply lookup_ge_None. rewrite (Forall2_length _ _ _ Hp).
    by apply lookup_ge_None.
Qed.

Lemma interleave_charging uid hi floor sched : ∀ s phs lo b,
  0 ≤ floor → healthy (backend s) →
  Forall2 (charging uid hi lo) phs (inflight s) →
  credits (backend s) !! uid = Some b → lo ≤ b ≤ hi →
  floor + Z.of_nat (sum_list (Nat.min 1 <$> phs)) ≤ lo →
  ∃ lo' b',
    Forall2 (charging uid hi lo') (foldl (λ phs i, alter Nat.pred i phs) phs sched)
            (inflight (interleave sched s))
    ∧ credits (backend (interleave sched s)) !! uid = Some b'
    ∧ floor ≤ b' ≤ hi.
Proof.
  induction sched as [|i sched IH]; intros s phs lo b Hfloor Hs Hp Hb Hbound Hpend.
  - exists lo, b. simpl. repeat split; (done || lia).
  - destruct (step_charging uid hi floor s i phs lo b)
      as (lo' & b' & Hs' & Hp' & Hb' & Hbound' & Hpend'); try done.
    exact (IH (step s i) _ lo' b' Hfloor Hs' Hp' Hb' Hbound' Hpend').
Qed.

Lemma phases_after sched : ∀ phs i (x : nat),
  phs !! i = Some x →
  foldl (λ phs i, alter Nat.pred i phs) phs sched !! i
  = Some (x - resumptions i sched)%nat.
Proof.
  induction sched as [|j sched IH]; intros phs i x Hx.
  - simpl. rewrite Hx. f_equal. lia.
  - simpl. destruct (decide (j = i)) as [->|Hne].
    + rewrite (IH _ i (Nat.pred x)); [f_equal; lia|].
      by rewrite list_lookup_alter_eq, Hx.
    + rewrite (IH _ i x); [f_equal; lia|].
      by rewrite list_lookup_alter_ne.
Qed.

End Charging.

(** C1, amended: on a backend that serves its queries, [k] [tick]s in
    flight together for an account holding [n], with [k <= n <= 2 ^ 53],
    resumed in any order: once each has been resumed twice, all [k] have
    answered [exhausted = false]; the balance is between [n - k] and [n];
    and it is exactly [n - k] when each [tick] is resumed to its end
    before the next one starts. *)
Theorem ticks_in_flight
    (uid : string) (n : Z) (k : nat) (sched : list nat) (w : world) :
  healthy w → credits w !! uid = Some n → Z.of_nat k ≤ n → n ≤ 2 ^ 53 →
  let s := interleave sched (Server (replicate k (tick uid)) w) in
  ((∀ i, (i < k)%nat → (2 ≤ resumptions i sched)%nat) →
     inflight s = replicate k (Return (sent (Exhausted false))))
  ∧ (∃ b, credits (backend s) !! uid = Some b ∧ n - Z.of_nat k ≤ b ≤ n)
  ∧ credits (backend (interleave (one_by_one k) (Server (replicate k (tick uid)) w)))
      !! uid = Some (n - Z.of_nat k).
Proof.
  intros Hw Hn Hk Hsafe s. subst s.
  destruct (interleave_charging uid n (n - Z.of_nat k) sched
              (Server (replicate k (tick uid)) w) (replicate k 2%nat) n n)
    as (lo & b & Hp & Hb & Hbound); try (done || lia).
  { simpl. apply Forall2_replicate. by apply charging_tick. }
  { rewrite fmap_replicate, sum_list_replicate. simpl. lia. }
  split; [|split].
  - intros Hall.
    apply (list_eq_same_length _ _ k);
      [by rewrite length_replicate
      |rewrite interleave_length; simpl; by rewrite length_replicate|].
    intros i p p' Hi Hp1 Hp2.
    apply lookup_replicate in Hp2 as [-> _].
    destruct (Forall2_lookup_r _ _ _ _ _ Hp Hp1) as (ph & Hph & Hq).
    rewrite (phases_after sched _ i 2) in Hph by by apply lookup_replicate_2.
    specialize (Hall i Hi). replace (2 - resumptions i sched)%nat with 0%nat in Hph by lia.
    injection Hph as <-. by inversion Hq.
  - exists b. split; [done|lia].
  - unfold one_by_one.
    assert (interleave (flat_map (λ i, [i; i]) (seq 0 k))
              (Server (replicate k (tick uid)) w)
            = Server (replicate k (Return (sent (Exhausted false))))
                     (World (<[uid := n - Z.of_nat k]> (credits w)) [])) as ->
      by exact (one_by_one_from uid k [] n w Hw Hn Hk Hsafe).
    simpl. apply lookup_insert_eq.
Qed.

Lemma ticks_in_flight_witness :
  let s := interleave [0; 1; 2; 2; 0; 1]%nat
             (Server (replicate 3 (tick "acct")) (World {["acct" := 5]} [])) in
  ((∀ i, (i < 3)%nat → (2 ≤ resumptions i [0; 1; 2; 2; 0; 1])%nat) →
     inflight s = replicate 3 (Return (sent (Exhausted false))))
  ∧ (∃ b, credits (backend s) !! "acct" = Some b ∧ 5 - Z.of_nat 3 ≤ b ≤ 5)
  ∧ credits (backend (interleave (one_by_one 3)
               (Server (replicate 3 (tick "acct")) (World {["acct" := 5]} []))))
      !! "acct" = Some (5 - Z.of_nat 3).
Proof.
  apply (ticks_in_flight "acct" 5 3); [reflexivity|reflexivity|simpl; lia|lia].
Defined.

(** * Properties of the other routes *)

(** ** Running a handler of the site *)

Section SiteRunning.

Import Site.

Implicit Types (s : site) (w : world) (idp : auth_call → auth_reply).

Lemma run_route_bind {A B} idp (p : route A) (f : A → route B) s :
  run_route idp (p ≫= f) s =
    match run_route idp p s with
    | (Fulfilled a, s') => run_route idp (f a) s'
    | (Rejected e, s') => (Rejected e, s')
    end.
Proof.
  revert s. change (p ≫= f) with (route_bind p f).
  induction p as [a|e|c k IH|uid k IH|k IH|q k IH|q k IH]; intros s; simpl;
    try done; try apply IH.
  - destruct (exec_meta_single uid s). apply IH.
  - destruct (exec_meta_all s). apply IH.
  - destruct (exec_meta_write q s). apply IH.
  - destruct (exec_credits q s). apply IH.
Qed.

Lemma run_route_catch {A} idp (p : route A) (h : exn → route A) s :
  run_route idp (catch p h) s =
    match run_route idp p s with
    | (Fulfilled a, s') => (Fulfilled a, s')
    | (Rejected e, s') => run_route idp (h e) s'
    end.
Proof.
  revert s.
  induction p as [a|e|c k IH|uid k IH|k IH|q k IH|q k IH]; intros s; simpl;
    try done; try apply IH.
  - destruct (exec_meta_single uid s). apply IH.
  - destruct (exec_meta_all s). apply IH.
  - destruct (exec_meta_write q s). apply IH.
  - destruct (exec_credits q s). apply IH.
Qed.

(** A ledger handler run as a handler of the site is the handler run on
    the ledger's backend; [user_meta] is not touched. *)
Lemma run_of_async {A} idp (p : async A) s :
  run_route idp (of_async p) s
  = ((run p (ledger s)).1, AtSite (run p (ledger s)).2 (user_meta s)).
Proof.
  revert s. induction p as [a|e|q k IH]; intros [w um]; simpl; try done.
  unfold exec_credits. simpl. destruct (exec q w) as [r w']. apply IH.
Qed.

Lemma next_fault_healthy w : healthy w → next_fault w = (false, w).
Proof.
  unfold healthy, next_fault. intros Hw. rewrite Hw. rewrite <- Hw.
  by rewrite world_eta.
Qed.

Lemma next_fault_credits w : credits (next_fault w).2 = credits w.
Proof. unfold next_fault. by destruct (faults w). Qed.

Lemma site_eta s : AtSite (ledger s) (user_meta s) = s.
Proof. by destruct s. Qed.

(** Reads of [user_meta]. *)
Lemma exec_meta_single_tables uid s :
  user_meta (exec_meta_single uid s).2 = user_meta s
  ∧ credits (ledger (exec_meta_single uid s).2) = credits (ledger s).
Proof.
  unfold exec_meta_single. pose proof (next_fault_credits (ledger s)) as Hc.
  destruct (next_fault (ledger s)) as [[] w]; simpl in *; [done|].
  by destruct (user_meta s !! uid).
Qed.

Lemma exec_meta_single_row uid s p :
  meta (exec_meta_single uid s).1 = Some p → user_meta s !! uid = Some p.
Proof.
  unfold exec_meta_single.
  destruct (next_fault (ledger s)) as [[] w]; simpl; [done|].
  by destruct (user_meta s !! uid); simpl; intros [= ->].
Qed.

Lemma exec_meta_single_healthy uid s :
  healthy (ledger s) →
  exec_meta_single uid s
  = (match user_meta s !! uid with
     | Some p => MetaReply (Some p) None
     | None => MetaReply None (Some NoRows)
     end, s).
Proof.
  intros Hs. unfold exec_meta_single. rewrite next_fault_healthy by done.
  rewrite site_eta. by destruct (user_meta s !! uid).
Qed.

Lemma exec_credits_select_tables uid s :
  user_meta (exec_credits (SelectSingle uid) s).2 = user_meta s
  ∧ credits (ledger (exec_credits (SelectSingle uid) s).2) = credits (ledger s).
Proof.
  unfold exec_credits. pose proof (exec_select_same uid (ledger s)) as Hc.
  by destruct (exec (SelectSingle uid) (ledger s)).
Qed.

Lemma exec_credits_select_healthy uid s :
  healthy (ledger s) →
  exec_credits (SelectSingle uid) s
  = (match credits (ledger s) !! uid with
     | Some n => Reply (Some (Row uid n)) None
     | None => Reply None (Some NoRows)
     end, s).
Proof.
  intros Hs. unfold exec_credits.
  destruct (credits (ledger s) !! uid) as [n|] eqn:Hn.
  - rewrite (select_found uid n) by done. by rewrite site_eta.
  - rewrite select_missing by done. by rewrite site_eta.
Qed.

(** [/login], query by query. *)
Lemma run_login idp email password s :
  run_route idp (login email password) s =
    let a := idp (SignInWithPassword email password) in
    match refusal a with
    | Some _ => (Fulfilled (Answer 400 (Err "Invalid login")), s)
    | None =>
        match user (granted_data a) with
        | None => (Fulfilled (Answer 500 (Err "Login failed")), s)
        | Some u =>
            let m := (exec_meta_single (id u) s).1 in
            let s1 := (exec_meta_single (id u) s).2 in
            match metaErr m with
            | Some _ => (Fulfilled (Answer 200 (Err "User profile not found")), s1)
            | None =>
                match meta m with
                | None => (Fulfilled (Answer 500 (Err "Login failed")), s1)
                | Some p =>
                    if decide (status p = "PENDING")
                    then (Fulfilled (Answer 200 (Err "Pending approval")), s1)
                    else if decide (status p = "BLOCKED")
                    then (Fulfilled (Answer 200 (Err "Blocked by admin")), s1)
                    else
                      let c := (exec_credits (SelectSingle (id u)) s1).1 in
                      let s2 := (exec_credits (SelectSingle (id u)) s1).2 in
                      match session (granted_data a) with
                      | None => (Fulfilled (Answer 500 (Err "Login failed")), s2)
                      | Some token =>
                          (Fulfilled
                             (Answer 200
                                (LoggedIn token
                                   (LoginUser (id u) (Site.email u) (name p) (phone p)
                                      (country p) (status p) (seconds_or_0 (data c))))),
                           s2)
                      end
                end
            end
        end
    end.
Proof.
  unfold login. rewrite run_route_catch. simpl.
  destruct (refusal _); [done|].
  destruct (user _) as [u|]; simpl; [|done].
  destruct (exec_meta_single (id u) s) as [m s1]. simpl.
  destruct (metaErr m); [done|].
  destruct (meta m) as [p|]; simpl; [|done].
  destruct (decide (status p = "PENDING")); [done|].
  destruct (decide (status p = "BLOCKED")); [done|]. simpl.
  destruct (exec_credits (SelectSingle (id u)) s1) as [c s2]. simpl.
  by destruct (session _).
Qed.

End SiteRunning.

(** ** [POST /login] *)

Section Login.

Import Site.

Implicit Types (s : site) (idp : auth_call → auth_reply).

(** X10: [/login] hands out a token only when the identity provider
    accepted the credentials and the account's row of [user_meta] was
    read with a status that is neither PENDING nor BLOCKED.  This holds
    whatever the backend and the identity provider do. *)
Theorem login_token_needs_cleared_profile
    idp (email password : string) s (st : Z) (token : string) (u : login_user) :
  (run_route idp (login email password) s).1
    = Fulfilled (Answer st (LoggedIn token u)) →
  ∃ acct p,
    refusal (idp (SignInWithPassword email password)) = None
    ∧ user (granted_data (idp (SignInWithPassword email password))) = Some acct
    ∧ user_meta s !! id acct = Some p
    ∧ status p ≠ "PENDING" ∧ status p ≠ "BLOCKED".
Proof.
  rewrite run_login. cbv zeta.
  destruct (refusal _); [done|].
  destruct (user _) as [acct|]; [|done].
  destruct (metaErr _); [done|].
  destruct (meta _) as [p|] eqn:Hp; [|done].
  destruct (decide (status p = "PENDING")); [done|].
  destruct (decide (status p = "BLOCKED")); [done|].
  intros _. exists acct, p. apply exec_meta_single_row in Hp. done.
Qed.

Lemma login_token_needs_cleared_profile_witness :
  let idp := λ _, AuthReply (AuthData (Some (Account "u1" "ann@example.org")) (Some "t0k")) None in
  let s := AtSite (World {["u1" := 30]} [])
                  {["u1" := Profile "Ann" "555" "NZ" "ACTIVE"]} in
  ∃ acct p,
    refusal (idp (SignInWithPassword "ann@example.org" "pw")) = None
    ∧ user (granted_data (idp (SignInWithPassword "ann@example.org" "pw"))) = Some acct
    ∧ user_meta s !! id acct = Some p
    ∧ status p ≠ "PENDING" ∧ status p ≠ "BLOCKED".
Proof.
  apply (login_token_needs_cleared_profile _ "ann@example.org" "pw" _ 200 "t0k"
           (LoginUser "u1" "ann@example.org" "Ann" "555" "NZ" "ACTIVE" 30)).
  reflexivity.
Defined.

(** X11: [/login] always answers (a throw inside it is caught and
    answered with 500), and it changes neither [user_meta] nor [credits],
    whatever the backend and the identity provider do. *)
Theorem login_answers_and_changes_nothing idp (email password : string) s :
  (∃ a, (run_route idp (login email password) s).1 = Fulfilled a)
  ∧ user_meta (run_route idp (login email password) s).2 = user_meta s
  ∧ credits (ledger (run_route idp (login email password) s).2) = credits (ledger s).
Proof.
  rewrite run_login. cbv zeta.
  destruct (exec_meta_single_tables
              (match user (granted_data (idp (SignInWithPassword email password))) with
               | Some u => id u | None => "" end) s) as [Hm Hc].
  destruct (refusal _); [by eauto|].
  destruct (user _) as [acct|]; [|by eauto].
  pose proof (exec_credits_select_tables (id acct) (exec_meta_single (id acct) s).2)
    as [Hm' Hc'].
  destruct (metaErr _); [by eauto|].
  destruct (meta _) as [p|]; [|by eauto].
  destruct (decide (status p = "PENDING")); [by eauto|].
  destruct (decide (status p = "BLOCKED")); [by eauto|].
  rewrite <- Hm, <- Hc, <- Hm', <- Hc'.
  destruct (session _); by eauto.
Qed.

Lemma login_cleared
    idp (email password : string) s (acct : account) (token : string) (p : profile) :
  healthy (ledger s) →
  idp (SignInWithPassword email password)
    = AuthReply (AuthData (Some acct) (Some token)) None →
  user_meta s !! id acct = Some p →
  status p ≠ "PENDING" → status p ≠ "BLOCKED" →
  run_route idp (login email password) s
  = (Fulfilled
       (Answer 200
          (LoggedIn token
             (LoginUser (id acct) (Site.email acct) (name p) (phone p) (country p)
                (status p) (default 0 (credits (ledger s) !! id acct))))),
     s).
Proof.
  intros Hs Hidp Hp Hpend Hblock. rewrite run_login. cbv zeta.
  rewrite Hidp. simpl. rewrite exec_meta_single_healthy by done.
  rewrite Hp. simpl.
  destruct (decide (status p = "PENDING")); [done|].
  destruct (decide (status p = "BLOCKED")); [done|].
  rewrite exec_credits_select_healthy by done. simpl.
  by destruct (credits (ledger s) !! id acct).
Qed.

Lemma login_pending
    idp (email password : string) s (acct : account) (session : option string) (p : profile) :
  healthy (ledger s) →
  idp (SignInWithPassword email password)
    = AuthReply (AuthData (Some acct) session) None →
  user_meta s !! id acct = Some p → status p = "PENDING" →
  run_route idp (login email password) s
  = (Fulfilled (Answer 200 (Err "Pending approval")), s).
Proof.
  intros Hs Hidp Hp Hst. rewrite run_login. cbv zeta. rewrite Hidp. simpl.
  rewrite exec_meta_single_healthy by done. rewrite Hp. simpl.
  by destruct (decide (status p = "PENDING")).
Qed.

(** X12: on a backend that serves its queries, with credentials the
    identity provider accepts and a profile that is neither PENDING nor
    BLOCKED, [/login] answers 200 with the provider's token, the
    profile's fields, and the account's balance: 0 when the account has
    no row in [credits]. *)
Theorem login_reports_profile_and_balance
    idp (email password : string) s (acct : account) (token : string) (p : profile) :
  healthy (ledger s) →
  idp (SignInWithPassword email password)
    = AuthReply (AuthData (Some acct) (Some token)) None →
  user_meta s !! id acct = Some p →
  status p ≠ "PENDING" → status p ≠ "BLOCKED" →
  run_route idp (login email password) s
  = (Fulfilled
       (Answer 200
          (LoggedIn token
             (LoginUser (id acct) (Site.email acct) (name p) (phone p) (country p)
                (status p) (default 0 (credits (ledger s) !! id acct))))),
     s).
Proof. apply login_cleared. Qed.

Lemma login_reports_profile_and_balance_witness :
  let idp := λ _, AuthReply (AuthData (Some (Account "u1" "ann@example.org")) (Some "t0k")) None in
  let s := AtSite (World ∅ []) {["u1" := Profile "Ann" "555" "NZ" "ACTIVE"]} in
  run_route idp (login "ann@example.org" "pw") s
  = (Fulfilled
       (Answer 200
          (LoggedIn "t0k"
             (LoginUser "u1" "ann@example.org" "Ann" "555" "NZ" "ACTIVE"
                (default 0 (credits (ledger s) !! "u1"))))),
     s).
Proof.
  apply (login_reports_profile_and_balance _ "ann@example.org" "pw" _
           (Account "u1" "ann@example.org") "t0k" (Profile "Ann" "555" "NZ" "ACTIVE"));
    (reflexivity || discriminate).
Defined.

(** X13: how [/login] refuses an account whose credentials the identity
    provider accepts, on a backend that serves its queries: a missing
    profile, a PENDING one and a BLOCKED one are each answered with their
    own error text, under status 200, and nothing is changed. *)
Theorem login_refusals
    idp (email password : string) s (acct : account) (session : option string) :
  healthy (ledger s) →
  idp (SignInWithPassword email password)
    = AuthReply (AuthData (Some acct) session) None →
  (user_meta s !! id acct = None →
     run_route idp (login email password) s
     = (Fulfilled (Answer 200 (Err "User profile not found")), s))
  ∧ (∀ p, user_meta s !! id acct = Some p → status p = "PENDING" →
       run_route idp (login email password) s
       = (Fulfilled (Answer 200 (Err "Pending approval")), s))
  ∧ (∀ p, user_meta s !! id acct = Some p → status p = "BLOCKED" →
       run_route idp (login email password) s
       = (Fulfilled (Answer 200 (Err "Blocked by admin")), s)).
Proof.
  intros Hs Hidp. rewrite run_login. cbv zeta. rewrite Hidp. simpl.
  rewrite exec_meta_single_healthy by done.
  split; [|split].
  - by intros ->.
  - intros p -> Hp. simpl. by destruct (decide (status p = "PENDING")).
  - intros p -> Hp. simpl. rewrite Hp. done.
Qed.

Lemma login_refusals_witness :
  let idp := λ _, AuthReply (AuthData (Some (Account "u1" "ann@example.org")) (Some "t0k")) None in
  let s := AtSite (World ∅ []) {["u1" := Profile "Ann" "555" "NZ" "PENDING"]} in
  run_route idp (login "ann@example.org" "pw") s
  = (Fulfilled (Answer 200 (Err "Pending approval")), s).
Proof.
  refine (proj1 (proj2 (login_refusals _ "ann@example.org" "pw" _
                          (Account "u1" "ann@example.org") (Some "t0k") _ _))
                (Profile "Ann" "555" "NZ" "PENDING") _ _);
    reflexivity.
Defined.

(** X14: credentials the identity provider rejects are answered 400
    "Invalid login", whatever the provider's own message; no query is
    sent, so the backend is exactly as it was. *)
Theorem login_bad_credentials idp (email password : string) s (error : auth_error) :
  refusal (idp (SignInWithPassword email password)) = Some error →
  run_route idp (login email password) s
  = (Fulfilled (Answer 400 (Err "Invalid login")), s).
Proof. intros He. rewrite run_login. cbv zeta. by rewrite He. Qed.

Lemma login_bad_credentials_witness :
  let idp := λ _, AuthReply (AuthData None None) (Some (AuthError "Invalid login credentials")) in
  let s := AtSite (World ∅ [true]) ∅ in
  run_route idp (login "ann@example.org" "pw") s
  = (Fulfilled (Answer 400 (Err "Invalid login")), s).
Proof.
  apply (login_bad_credentials _ "ann@example.org" "pw" _
           (AuthError "Invalid login credentials")).
  reflexivity.
Defined.

End Login.

(** ** [POST /signup] and [POST /admin/approve] *)

Section Accounts.

Import Site.

Implicit Types (s : site) (idp : auth_call → auth_reply).

(** [/signup], query by query. *)
Lemma run_signup idp (email password nm ph co : string) s :
  run_route idp (signup email password nm ph co) s =
    let a := idp (SignUp email password) in
    match refusal a with
    | Some error => (Fulfilled (Answer 400 (Err (message error))), s)
    | None =>
        match user (granted_data a) with
        | None => (Fulfilled (Answer 500 (Err "Signup failed")), s)
        | Some u =>
            (Fulfilled (Answer 200 (Msg "Account created. Pending admin approval.")),
             (exec_credits (Insert (Row (id u) 0))
                (exec_meta_write
                   (MetaInsert (id u) (Profile nm ph co "PENDING")) s).2).2)
        end
    end.
Proof.
  unfold signup. rewrite run_route_catch. simpl.
  destruct (refusal _); [done|].
  destruct (user _) as [u|]; simpl; [|done].
  destruct (exec_meta_write _ s) as [r1 s1]. simpl.
  by destruct (exec_credits _ s1) as [r2 s2].
Qed.

Lemma signup_fresh idp (email password nm ph co : string) s
    (acct : account) (session : option string) :
  healthy (ledger s) →
  idp (SignUp email password) = AuthReply (AuthData (Some acct) session) None →
  user_meta s !! id acct = None → credits (ledger s) !! id acct = None →
  run_route idp (signup email password nm ph co) s
  = (Fulfilled (Answer 200 (Msg "Account created. Pending admin approval.")),
     AtSite (World (<[id acct := 0]> (credits (ledger s))) [])
            (<[id acct := Profile nm ph co "PENDING"]> (user_meta s))).
Proof.
  intros Hs Hidp Hm Hc. rewrite run_signup. cbv zeta. rewrite Hidp. simpl.
  unfold exec_meta_write. rewrite next_fault_healthy by done. rewrite Hm.
  unfold exec_credits. simpl. by rewrite insert_missing.
Qed.

Lemma approve_healthy idp (userId : string) s :
  healthy (ledger s) →
  run_route idp (admin_approve userId) s
  = (Fulfilled (Answer 200 (Msg "Approved")),
     AtSite (ledger s) (alter (set_status "ACTIVE") userId (user_meta s))).
Proof.
  intros Hs. unfold admin_approve. simpl.
  unfold exec_meta_write. rewrite next_fault_healthy by done.
  destruct (user_meta s !! userId) as [p|] eqn:Hp; simpl; do 2 f_equal.
  - apply map_eq. intros j. rewrite lookup_alter. case_decide as Hj.
    + subst j. by rewrite lookup_insert_eq, Hp.
    + by rewrite lookup_insert_ne.
  - apply map_eq. intros j. rewrite lookup_alter. case_decide as Hj; [|done].
    subst j. by rewrite Hp.
Qed.

(** X15: the answer of [/signup] is decided by the identity provider
    alone: 400 with the provider's message when it refuses, 500 "Signup
    failed" when it hands back no user, and 200 "Account created"
    otherwise, whether or not the two inserts were served. *)
Theorem signup_answer_ignores_backend idp (email password nm ph co : string) s :
  (run_route idp (signup email password nm ph co) s).1
  = Fulfilled
      (match refusal (idp (SignUp email password)) with
       | Some error => Answer 400 (Err (message error))
       | None =>
           match user (granted_data (idp (SignUp email password))) with
           | None => Answer 500 (Err "Signup failed")
           | Some _ => Answer 200 (Msg "Account created. Pending admin approval.")
           end
       end).
Proof.
  rewrite run_signup. cbv zeta. destruct (refusal _); [done|]. by destruct (user _).
Qed.

(** X16: on a backend that serves its queries, [/signup] of an account
    the identity provider creates, and that has no row yet, stores a
    profile with the given name, phone and country and the status PENDING,
    and a balance of 0; nothing else changes. *)
Theorem signup_creates_pending_account idp (email password nm ph co : string) s
    (acct : account) (session : option string) :
  healthy (ledger s) →
  idp (SignUp email password) = AuthReply (AuthData (Some acct) session) None →
  user_meta s !! id acct = None → credits (ledger s) !! id acct = None →
  run_route idp (signup email password nm ph co) s
  = (Fulfilled (Answer 200 (Msg "Account created. Pending admin approval.")),
     AtSite (World (<[id acct := 0]> (credits (ledger s))) [])
            (<[id acct := Profile nm ph co "PENDING"]> (user_meta s))).
Proof. apply signup_fresh. Qed.

Lemma signup_creates_pending_account_witness :
  let acct := Account "u1" "ann@example.org" in
  let idp := λ _, AuthReply (AuthData (Some acct) None) None in
  let s := AtSite (World ∅ []) ∅ in
  run_route idp (signup "ann@example.org" "pw" "Ann" "555" "NZ") s
  = (Fulfilled (Answer 200 (Msg "Account created. Pending admin approval.")),
     AtSite (World (<[id acct := 0]> (credits (ledger s))) [])
            (<[id acct := Profile "Ann" "555" "NZ" "PENDING"]> (user_meta s))).
Proof.
  apply (signup_creates_pending_account _ "ann@example.org" "pw" "Ann" "555" "NZ" _
           (Account "u1" "ann@example.org") None);
    reflexivity.
Defined.

(** X17: on a backend that serves its queries, [/admin/approve] sets the
    status of the account's profile to ACTIVE, whatever it was, and keeps
    the profile's other fields; every other profile and the whole of
    [credits] are as they were.  For an id without a profile it changes
    nothing, and answers "Approved" all the same. *)
Theorem approve_activates idp (userId : string) s :
  healthy (ledger s) →
  run_route idp (admin_approve userId) s
  = (Fulfilled (Answer 200 (Msg "Approved")),
     AtSite (ledger s) (alter (set_status "ACTIVE") userId (user_meta s))).
Proof. apply approve_healthy. Qed.

Lemma approve_activates_witness :
  let idp := λ _, AuthReply (AuthData None None) None in
  let s := AtSite (World ∅ []) {["u1" := Profile "Ann" "555" "NZ" "BLOCKED"]} in
  run_route idp (admin_approve "u1") s
  = (Fulfilled (Answer 200 (Msg "Approved")),
     AtSite (ledger s) (alter (set_status "ACTIVE") "u1" (user_meta s))).
Proof. apply (approve_activates _ "u1"). reflexivity. Defined.

(** X18: the life of an account, on a backend that serves its queries.
    After [/signup], [/login] answers "Pending approval" and a [/tick]
    answers [exhausted = true].  After [/admin/approve], [/login] hands
    out the token with the status ACTIVE and 0 credits.  After
    [/admin/add-credits] of [n], an integer that a Number can hold,
    [/login] reports [n] credits. *)
Theorem signup_approve_login idp (email password nm ph co : string) s
    (acct : account) (session : option string) (token : string) (n : Z) :
  healthy (ledger s) →
  idp (SignUp email password) = AuthReply (AuthData (Some acct) session) None →
  idp (SignInWithPassword email password)
    = AuthReply (AuthData (Some acct) (Some token)) None →
  user_meta s !! id acct = None → credits (ledger s) !! id acct = None →
  is_number n →
  let s1 := (run_route idp (signup email password nm ph co) s).2 in
  let s2 := (run_route idp (admin_approve (id acct)) s1).2 in
  let s3 := (run_route idp (of_async (add_credits (id acct) n)) s2).2 in
  (run_route idp (login email password) s1).1
    = Fulfilled (Answer 200 (Err "Pending approval"))
  ∧ (run_route idp (of_async (tick (id acct))) s1).1
    = Fulfilled (sent (Exhausted true))
  ∧ (run_route idp (login email password) s2).1
    = Fulfilled (Answer 200 (LoggedIn token
        (LoginUser (id acct) (Site.email acct) nm ph co "ACTIVE" 0)))
  ∧ (run_route idp (login email password) s3).1
    = Fulfilled (Answer 200 (LoggedIn token
        (LoginUser (id acct) (Site.email acct) nm ph co "ACTIVE" n))).
Proof.
  intros Hs Hup Hin Hm Hc Hnum s1 s2 s3.
  assert (s1 = AtSite (World (<[id acct := 0]> (credits (ledger s))) [])
                      (<[id acct := Profile nm ph co "PENDING"]> (user_meta s))) as Hs1.
  { unfold s1. by rewrite (signup_fresh idp email password nm ph co s acct session). }
  assert (s2 = AtSite (World (<[id acct := 0]> (credits (ledger s))) [])
                      (<[id acct := Profile nm ph co "ACTIVE"]> (user_meta s))) as Hs2.
  { unfold s2. rewrite approve_healthy by (by rewrite Hs1). rewrite Hs1. simpl.
    f_equal. by rewrite alter_insert_eq. }
  assert (s3 = AtSite (World (<[id acct := n]> (credits (ledger s))) [])
                      (<[id acct := Profile nm ph co "ACTIVE"]> (user_meta s))) as Hs3.
  { unfold s3. rewrite run_of_async. rewrite Hs2. cbn [ledger user_meta fst snd].
    rewrite (add_credits_found (id acct) 0); [|done|apply lookup_insert_eq].
    simpl. rewrite insert_insert_eq. unfold number_add.
    by rewrite Z.add_0_l, (proj1 Hnum). }
  clearbody s1 s2 s3. subst s1 s2 s3. repeat split.
  - rewrite (login_pending idp email password _ acct (Some token)
               (Profile nm ph co "PENDING")); try done.
    apply lookup_insert_eq.
  - rewrite run_of_async. cbn [ledger user_meta fst snd].
    rewrite (tick_empty (id acct) 0); [done|done|apply lookup_insert_eq|done].
  - rewrite (login_cleared idp email password _ acct token
               (Profile nm ph co "ACTIVE")); try done; [|apply lookup_insert_eq].
    simpl. by rewrite lookup_insert_eq.
  - rewrite (login_cleared idp email password _ acct token
               (Profile nm ph co "ACTIVE")); try done; [|apply lookup_insert_eq].
    simpl. by rewrite lookup_insert_eq.
Qed.

Lemma signup_approve_login_witness :
  let acct := Account "u1" "ann@example.org" in
  let idp := λ c, match c with
                  | SignUp _ _ => AuthReply (AuthData (Some acct) None) None
                  | SignInWithPassword _ _ => AuthReply (AuthData (Some acct) (Some "t0k")) None
                  end in
  let s := AtSite (World ∅ []) ∅ in
  let s1 := (run_route idp (signup "ann@example.org" "pw" "Ann" "555" "NZ") s).2 in
  let s2 := (run_route idp (admin_approve (id acct)) s1).2 in
  let s3 := (run_route idp (of_async (add_credits (id acct) 60)) s2).2 in
  (run_route idp (login "ann@example.org" "pw") s1).1
    = Fulfilled (Answer 200 (Err "Pending approval"))
  ∧ (run_route idp (of_async (tick (id acct))) s1).1
    = Fulfilled (sent (Exhausted true))
  ∧ (run_route idp (login "ann@example.org" "pw") s2).1
    = Fulfilled (Answer 200 (LoggedIn "t0k"
        (LoginUser (id acct) (Site.email acct) "Ann" "555" "NZ" "ACTIVE" 0)))
  ∧ (run_route idp (login "ann@example.org" "pw") s3).1
    = Fulfilled (Answer 200 (LoggedIn "t0k"
        (LoginUser (id acct) (Site.email acct) "Ann" "555" "NZ" "ACTIVE" 60))).
Proof.
  apply (signup_approve_login _ "ann@example.org" "pw" "Ann" "555" "NZ" _
           (Account "u1" "ann@example.org") None "t0k" 60);
    try reflexivity.
  split; reflexivity.
Defined.

End Accounts.

(** ** [GET /admin/users] *)

Section Listing.

Import Site.

Implicit Types (s : site) (idp : auth_call → auth_reply).

Lemma list_users_healthy idp (l : list (string * profile)) s :
  healthy (ledger s) →
  run_route idp (list_users l) s
  = (Fulfilled ((λ '(uid, p), Listed uid p (default 0 (credits (ledger s) !! uid))) <$> l),
     s).
Proof.
  intros Hs. induction l as [|[uid p] l IH]; [done|].
  simpl. rewrite exec_credits_select_healthy by done.
  change (route_bind (list_users l) ?f) with (list_users l ≫= f).
  rewrite run_route_bind, IH. simpl.
  by destruct (credits (ledger s) !! uid).
Qed.

(** X19: on a backend that serves its queries, [/admin/users] answers 200
    with one entry per row of [user_meta] and no other: the row, and the
    account's balance, 0 for an account without a row in [credits].
    Nothing is changed. *)
Theorem admin_users_lists_every_profile idp s :
  healthy (ledger s) →
  ∃ users,
    run_route idp admin_users s = (Fulfilled (Answer 200 (Users users)), s)
    ∧ length users = size (user_meta s)
    ∧ ∀ uid p n,
        Listed uid p n ∈ users
        ↔ user_meta s !! uid = Some p ∧ n = default 0 (credits (ledger s) !! uid).
Proof.
  intros Hs.
  exists ((λ '(uid, p), Listed uid p (default 0 (credits (ledger s) !! uid)))
            <$> map_to_list (user_meta s)).
  split; [|split].
  - unfold admin_users. simpl. unfold exec_meta_all.
    rewrite next_fault_healthy by done. simpl. rewrite site_eta.
    rewrite run_route_bind, list_users_healthy by done. done.
  - rewrite length_fmap. apply length_map_to_list.
  - intros uid p n. rewrite list_elem_of_fmap. split.
    + intros ([uid' p'] & [= -> -> ->] & Hin). by apply elem_of_map_to_list in Hin.
    + intros [Hp ->]. exists (uid, p). split; [done|]. by apply elem_of_map_to_list.
Qed.

Lemma admin_users_lists_every_profile_witness :
  let idp := λ _, AuthReply (AuthData None None) None in
  let s := AtSite (World {["u1" := 30]} [])
                  (<["u2" := Profile "Bob" "556" "AU" "PENDING"]>
                     {["u1" := Profile "Ann" "555" "NZ" "ACTIVE"]}) in
  ∃ users,
    run_route idp admin_users s = (Fulfilled (Answer 200 (Users users)), s)
    ∧ length users = size (user_meta s)
    ∧ ∀ uid p n,
        Listed uid p n ∈ users
        ↔ user_meta s !! uid = Some p ∧ n = default 0 (credits (ledger s) !! uid).
Proof. apply admin_users_lists_every_profile. reflexivity. Defined.

(** X20: when the select on [user_meta] is lost to an outage,
    [/admin/users] answers 500 with the storage error and sends no
    further query: this route does read the [error] of a reply. *)
Theorem admin_users_reports_outage idp s (fs : list bool) :
  faults (ledger s) = true :: fs →
  run_route idp admin_users s
  = (Fulfilled (Answer 500 (ErrObj Unavailable)),
     AtSite (World (credits (ledger s)) fs) (user_meta s)).
Proof.
  intros Hf. unfold admin_users. simpl. unfold exec_meta_all, next_fault.
  by rewrite Hf.
Qed.

Lemma admin_users_reports_outage_witness :
  let idp := λ _, AuthReply (AuthData None None) None in
  let s := AtSite (World {["u1" := 30]} [true; false])
                  {["u1" := Profile "Ann" "555" "NZ" "ACTIVE"]} in
  run_route idp admin_users s
  = (Fulfilled (Answer 500 (ErrObj Unavailable)),
     AtSite (World (credits (ledger s)) [false]) (user_meta s)).
Proof. apply (admin_users_reports_outage _ _ [false]). reflexivity. Defined.

End Listing.

(** ** The relay loop of [POST /chat] *)

Section Relay.

Import Chat.

(** X21: the loop of [/chat] writes the contents of the stream's chunks in
    order: what it has written, put together, is the chunks' contents put
    together, a chunk without content counting for nothing; and it never
    writes an empty string. *)
Theorem relay_forwards_the_contents (stream : list chunk) :
  foldr String.append "" (relay stream) = foldr String.append "" (txt <$> stream)
  ∧ Forall (λ t, t ≠ "") (relay stream).
Proof.
  induction stream as [|c stream [IHtext IHne]]; [by split|].
  simpl. destruct (decide (txt c = "")) as [Hc|Hc].
  - rewrite Hc. simpl. by split.
  - simpl. rewrite IHtext. split; [done|]. by constructor.
Qed.

End Relay.
